(** * The PyMT animation engine ([pymt/ui/animation.py])

    A shallow embedding of the animation composition and execution engine:
    the leaf interpolators ([AbsoluteAnimationBase], [DeltaAnimationBase]),
    the [Animation] spec, the [SequenceAnimation] and [ParallelAnimation]
    combinators, the [Repeat] controller and the [AnimationAlpha] easing
    table, followed by the properties proved about them.

    Conventions of the embedding.
    - Python objects live in a store ([World]); an object is named by its
      index in the heap of its class, so aliasing is aliasing of indices.
    - Python [float]s are idealised as rationals ([Q]); [int]s are [Z].
      Equality of floats is therefore [Qeq], not Leibniz equality.
    - A raised exception aborts the computation ([Raise]); the exception is
      named by its class name.
    - Python dictionaries are association lists in insertion order. *)

From Stdlib Require Import ZArith QArith Qround List String Bool Lia.
Import ListNotations.

Set Implicit Arguments.
Set Warnings "-register-all".

(* ------------------------------------------------------------------ *)
(** * Exceptions and results *)
(* ------------------------------------------------------------------ *)

Inductive exn : Type := Exn (class_name : string).

Definition AssertionError : exn := Exn "AssertionError".
Definition AttributeError : exn := Exn "AttributeError".
Definition KeyError : exn := Exn "KeyError".
Definition IndexError : exn := Exn "IndexError".
Definition TypeError : exn := Exn "TypeError".
Definition ZeroDivisionError : exn := Exn "ZeroDivisionError".
Definition RecursionError : exn := Exn "RecursionError".
Definition ReferenceError : exn := Exn "ReferenceError".
Definition NotImplementedError : exn := Exn "NotImplementedError".

Inductive result (A : Type) : Type :=
| Ok (a : A)
| Raise (e : exn).
Arguments Ok {A} a.
Arguments Raise {A} e.

Definition rbind {A B} (r : result A) (k : A -> result B) : result B :=
  match r with
  | Ok a => k a
  | Raise e => Raise e
  end.

Declare Scope res_scope.
Delimit Scope res_scope with res.
Notation "x <- c ;; k" := (rbind c (fun x => k))
  (at level 61, c at next level, right associativity) : res_scope.

(* ------------------------------------------------------------------ *)
(** * Python values *)
(* ------------------------------------------------------------------ *)

(** The values a property, a keyword argument or a delta can hold. *)
Inductive value : Type :=
| VNone
| VBool (b : bool)
| VInt (z : Z)
| VFloat (q : Q)
| VStr (s : string)
| VList (l : list value)
| VTuple (l : list value)
| VDict (d : list (string * value)).

Definition dict : Type := list (string * value).

Inductive pytype : Type :=
| TNone | TBool | TInt | TFloat | TStr | TList | TTuple | TDict.

(** [type(v)] *)
Definition type_of (v : value) : pytype :=
  match v with
  | VNone => TNone
  | VBool _ => TBool
  | VInt _ => TInt
  | VFloat _ => TFloat
  | VStr _ => TStr
  | VList _ => TList
  | VTuple _ => TTuple
  | VDict _ => TDict
  end.

(** Truth value of an object, as [if v:] tests it. *)
Definition truthy (v : value) : bool :=
  match v with
  | VNone => false
  | VBool b => b
  | VInt z => negb (z =? 0)%Z
  | VFloat q => negb (Qeq_bool q 0)
  | VStr s => negb (String.eqb s "")
  | VList l | VTuple l => negb (Nat.eqb (List.length l) 0)
  | VDict d => negb (Nat.eqb (List.length d) 0)
  end.

(** ** Dictionaries *)

Fixpoint dict_get {V : Type} (d : list (string * V)) (k : string) : option V :=
  match d with
  | [] => None
  | (k', v) :: d' => if String.eqb k' k then Some v else dict_get d' k
  end.

(** [d[k] = v]: an existing key keeps its position. *)
Fixpoint dict_set {V : Type} (d : list (string * V)) (k : string) (v : V)
  : list (string * V) :=
  match d with
  | [] => [(k, v)]
  | (k', v') :: d' =>
      if String.eqb k' k then (k, v) :: d' else (k', v') :: dict_set d' k v
  end.

Definition dict_has {V : Type} (d : list (string * V)) (k : string) : bool :=
  match dict_get d k with Some _ => true | None => false end.

(** [d.setdefault(k, v)] *)
Definition dict_setdefault (d : dict) (k : string) (v : value) : dict :=
  if dict_has d k then d else dict_set d k v.

Definition dict_keys {V : Type} (d : list (string * V)) : list string :=
  map fst d.

(** [d[k]], raising [KeyError]. *)
Definition dict_item {V : Type} (d : list (string * V)) (k : string) : result V :=
  match dict_get d k with
  | Some v => Ok v
  | None => Raise KeyError
  end.

(** ** Numbers *)

(** [int(q)] truncates towards zero. *)
Definition Qtruncate (q : Q) : Z :=
  if Qle_bool 0 q then Qfloor q else Qceiling q.

Definition Q_of_bool (b : bool) : Q := if b then 1 else 0.
Definition Z_of_bool (b : bool) : Z := if b then 1%Z else 0%Z.

(** [v * q] for a float [q]. Sequences and strings cannot be multiplied by a
    float. *)
Definition mul_float (v : value) (q : Q) : result Q :=
  match v with
  | VBool b => Ok (Q_of_bool b * q)
  | VInt z => Ok (inject_Z z * q)
  | VFloat a => Ok (a * q)
  | _ => Raise TypeError
  end.

(** [a + b] *)
Definition py_add (a b : value) : result value :=
  match a, b with
  | VInt x, VInt y => Ok (VInt (x + y))
  | VInt x, VBool y => Ok (VInt (x + Z_of_bool y))
  | VBool x, VInt y => Ok (VInt (Z_of_bool x + y))
  | VBool x, VBool y => Ok (VInt (Z_of_bool x + Z_of_bool y))
  | VInt x, VFloat y => Ok (VFloat (inject_Z x + y))
  | VFloat x, VInt y => Ok (VFloat (x + inject_Z y))
  | VBool x, VFloat y => Ok (VFloat (Q_of_bool x + y))
  | VFloat x, VBool y => Ok (VFloat (x + Q_of_bool y))
  | VFloat x, VFloat y => Ok (VFloat (x + y))
  | VStr x, VStr y => Ok (VStr (String.append x y))
  | VList x, VList y => Ok (VList (x ++ y))
  | VTuple x, VTuple y => Ok (VTuple (x ++ y))
  | _, _ => Raise TypeError
  end.

(** [float(v)]; parsing a string is not modelled. *)
Definition py_float (v : value) : result Q :=
  match v with
  | VBool b => Ok (Q_of_bool b)
  | VInt z => Ok (inject_Z z)
  | VFloat q => Ok q
  | VStr _ => Raise NotImplementedError
  | _ => Raise TypeError
  end.

(** [ty(v)]: the constructor of type [ty] called on [v]. The conversions the
    interpolation can reach are the numeric ones and those between
    containers; conversions from strings are not modelled. *)
Definition construct (ty : pytype) (v : value) : result value :=
  match ty, v with
  | TBool, _ => Ok (VBool (truthy v))
  | TInt, VBool b => Ok (VInt (Z_of_bool b))
  | TInt, VInt z => Ok (VInt z)
  | TInt, VFloat q => Ok (VInt (Qtruncate q))
  | TFloat, (VBool _ | VInt _ | VFloat _) =>
      (q <- py_float v ;; Ok (VFloat q))%res
  | TList, (VList l | VTuple l) => Ok (VList l)
  | TList, VDict d => Ok (VList (map VStr (dict_keys d)))
  | TTuple, (VList l | VTuple l) => Ok (VTuple l)
  | TTuple, VDict d => Ok (VTuple (map VStr (dict_keys d)))
  | TDict, VDict d => Ok (VDict d)
  | (TInt | TFloat | TList | TTuple | TDict | TStr), VStr _ =>
      Raise NotImplementedError
  | _, _ => Raise TypeError
  end.

(** [len(v)] *)
Definition py_len (v : value) : result nat :=
  match v with
  | VStr s => Ok (String.length s)
  | VList l | VTuple l => Ok (List.length l)
  | VDict d => Ok (List.length d)
  | _ => Raise TypeError
  end.

(** [v[k]] for a string key [k]. *)
Definition getitem_str (v : value) (k : string) : result value :=
  match v with
  | VDict d => dict_item d k
  | _ => Raise TypeError
  end.

(** [v[i]] for an index [i >= 0]. *)
Definition getitem_nat (v : value) (i : nat) : result value :=
  match v with
  | VList l | VTuple l =>
      match nth_error l i with
      | Some x => Ok x
      | None => Raise IndexError
      end
  | VDict _ => Raise KeyError
  | VStr _ => Raise NotImplementedError
  | _ => Raise TypeError
  end.

(** [for k in v]: the keys a value yields when it is used as a collection of
    property names (a dictionary, or a sequence of strings). *)
Fixpoint strings_of (l : list value) : result (list string) :=
  match l with
  | [] => Ok []
  | VStr s :: l' => (r <- strings_of l' ;; Ok (s :: r))%res
  | _ :: _ => Raise KeyError
  end.

Definition iter_keys (v : value) : result (list string) :=
  match v with
  | VDict d => Ok (dict_keys d)
  | VList l | VTuple l => strings_of l
  | VStr _ => Raise NotImplementedError
  | _ => Raise TypeError
  end.

(* ------------------------------------------------------------------ *)
(** * Interpolation: [AnimationBase._calculate_attribute_value] *)
(* ------------------------------------------------------------------ *)

(** A recursive function to calculate the resultant value of a property.
    Tuples and lists are handled element by element and yield a fresh list;
    dictionaries key by key; anything else is treated as a number. *)
Fixpoint _calculate_attribute_value (vstart vend : value) (t : Q)
  {struct vstart} : result value :=
  let elements :=
    fix elements (ls le : list value) {struct ls} : result (list value) :=
      match ls, le with
      | x :: ls', y :: le' =>
          (r <- _calculate_attribute_value x y t ;;
           c <- construct (type_of x) r ;;
           rest <- elements ls' le' ;;
           Ok (c :: rest))%res
      | _, _ => Ok []
      end in
  let items :=
    fix items (ds : list (string * value)) {struct ds} : result dict :=
      match ds with
      | [] => Ok []
      | (k, x) :: ds' =>
          (y <- getitem_str vend k ;;
           r <- _calculate_attribute_value x y t ;;
           c <- construct (type_of x) r ;;
           rest <- items ds' ;;
           Ok ((k, c) :: rest))%res
      end in
  match vstart with
  | VList ls | VTuple ls =>
      match vend with
      | VList le | VTuple le =>
          if Nat.eqb (List.length ls) (List.length le)
          then (vs <- elements ls le ;; Ok (VList vs))%res
          else Raise AssertionError
      | _ => Raise AssertionError
      end
  | VDict ds =>
      (n <- py_len vend ;;
       if Nat.eqb (List.length ds) n
       then (d <- items ds ;; Ok (VDict d))
       else Raise AssertionError)%res
  | _ =>
      (a <- mul_float vstart (1 - t) ;;
       b <- mul_float vend t ;;
       construct (type_of vstart) (VFloat (a + b)))%res
  end.

(* ------------------------------------------------------------------ *)
(** * The easing library: [AnimationAlpha] *)
(* ------------------------------------------------------------------ *)

(** The functions defined in the body of class [AnimationAlpha]. *)
Inductive alpha : Type :=
| linear
| ease_in_quad | ease_out_quad | ease_in_out_quad
| ease_in_cubic | ease_out_cubic | ease_in_out_cubic
| ease_in_quart | ease_out_quart | ease_in_out_quart
| ease_in_quint | ease_out_quint | ease_in_out_quint
| ease_in_sine | ease_out_sine | ease_in_out_sine
| ease_in_expo | ease_out_expo | ease_in_out_expo
| ease_in_circ | ease_out_circ | ease_in_out_circ
| ease_in_elastic | ease_out_elastic | ease_in_out_elastic
| ease_in_back | ease_out_back | ease_in_out_back
| _ease_out_bounce_internal | _ease_in_bounce_internal
| ease_in_bounce | ease_out_bounce | ease_in_out_bounce.

Definition AnimationAlpha_namespace : list (string * alpha) :=
  [ ("linear", linear);
    ("ease_in_quad", ease_in_quad); ("ease_out_quad", ease_out_quad);
    ("ease_in_out_quad", ease_in_out_quad);
    ("ease_in_cubic", ease_in_cubic); ("ease_out_cubic", ease_out_cubic);
    ("ease_in_out_cubic", ease_in_out_cubic);
    ("ease_in_quart", ease_in_quart); ("ease_out_quart", ease_out_quart);
    ("ease_in_out_quart", ease_in_out_quart);
    ("ease_in_quint", ease_in_quint); ("ease_out_quint", ease_out_quint);
    ("ease_in_out_quint", ease_in_out_quint);
    ("ease_in_sine", ease_in_sine); ("ease_out_sine", ease_out_sine);
    ("ease_in_out_sine", ease_in_out_sine);
    ("ease_in_expo", ease_in_expo); ("ease_out_expo", ease_out_expo);
    ("ease_in_out_expo", ease_in_out_expo);
    ("ease_in_circ", ease_in_circ); ("ease_out_circ", ease_out_circ);
    ("ease_in_out_circ", ease_in_out_circ);
    ("ease_in_elastic", ease_in_elastic); ("ease_out_elastic", ease_out_elastic);
    ("ease_in_out_elastic", ease_in_out_elastic);
    ("ease_in_back", ease_in_back); ("ease_out_back", ease_out_back);
    ("ease_in_out_back", ease_in_out_back);
    ("_ease_out_bounce_internal", _ease_out_bounce_internal);
    ("_ease_in_bounce_internal", _ease_in_bounce_internal);
    ("ease_in_bounce", ease_in_bounce); ("ease_out_bounce", ease_out_bounce);
    ("ease_in_out_bounce", ease_in_out_bounce) ]%string.

(** [getattr(AnimationAlpha, name)], over the functions of the class body
    (the attributes every Python class inherits from [object] are left out). *)
Definition AnimationAlpha_getattr (name : value) : result alpha :=
  match name with
  | VStr s =>
      match dict_get AnimationAlpha_namespace s with
      | Some f => Ok f
      | None => Raise AttributeError
      end
  | _ => Raise TypeError
  end.

(** [a / b] on floats. *)
Definition py_div (a b : Q) : result Q :=
  if Qeq_bool b 0 then Raise ZeroDivisionError else Ok (a / b).

Definition Qltb (a b : Q) : bool := negb (Qle_bool b a).

Definition bounce_out (t d : Q) : result Q :=
  (p <- py_div t d ;;
   if Qltb p (1 / 2.75) then Ok (7.5625 * p * p)
   else if Qltb p (2 / 2.75) then
     let p := p - (1.5 / 2.75) in Ok (7.5625 * p * p + 0.75)
   else if Qltb p (2.5 / 2.75) then
     let p := p - (2.25 / 2.75) in Ok (7.5625 * p * p + 0.9375)
   else
     let p := p - (2.625 / 2.75) in Ok (7.5625 * p * p + 0.984375))%res.

Definition bounce_in (t d : Q) : result Q :=
  (r <- bounce_out (d - t) d ;; Ok (1 - r))%res.

(** [f(progress, animation)], where the animation is read through
    [get_frame_pointer()] ([t]) and [get_duration()] ([d]). The curves built
    on [math.sin], [math.cos], [math.sqrt] and [math.pow] have no rational
    value and are not evaluated; the two bounce helpers take [(t, d)] and
    cannot be called with an animation object. *)
Definition AnimationAlpha_call (f : alpha) (progress t d : Q) : result Q :=
  match f with
  | linear => Ok progress
  | ease_in_quad => Ok (progress * progress)
  | ease_out_quad => Ok (-(1) * progress * (progress - 2))
  | ease_in_out_quad =>
      (p <- py_div t (d / 2) ;;
       if Qltb p 1 then Ok (0.5 * p * p)
       else let p := p - 1 in Ok (-(0.5) * (p * (p - 2) - 1)))%res
  | ease_in_cubic => Ok (progress * progress * progress)
  | ease_out_cubic =>
      (q <- py_div t d ;; let p := q - 1 in Ok (p * p * p + 1))%res
  | ease_in_out_cubic =>
      (p <- py_div t (d / 2) ;;
       if Qltb p 1 then Ok (0.5 * p * p * p)
       else let p := p - 2 in Ok (0.5 * (p * p * p + 2)))%res
  | ease_in_quart => Ok (progress * progress * progress * progress)
  | ease_out_quart =>
      (q <- py_div t d ;; let p := q - 1 in
       Ok (-(1) * (p * p * p * p - 1)))%res
  | ease_in_out_quart =>
      (p <- py_div t (d / 2) ;;
       if Qltb p 1 then Ok (0.5 * p * p * p * p)
       else let p := p - 2 in Ok (-(0.5) * (p * p * p * p - 2)))%res
  | ease_in_quint =>
      Ok (progress * progress * progress * progress * progress)
  | ease_out_quint =>
      (q <- py_div t d ;; let p := q - 1 in
       Ok (p * p * p * p * p + 1))%res
  | ease_in_out_quint =>
      (p <- py_div t (d / 2) ;;
       if Qltb p 1 then Ok (0.5 * p * p * p * p * p)
       else let p := p - 2 in Ok (0.5 * (p * p * p * p * p + 2)))%res
  | ease_in_back =>
      Ok (progress * progress * ((1.70158 + 1) * progress - 1.70158))
  | ease_out_back =>
      (q <- py_div t d ;; let p := q - 1 in
       Ok (p * p * ((1.70158 + 1) * p + 1.70158) + 1))%res
  | ease_in_out_back =>
      (p <- py_div t (d / 2) ;;
       let s := 1.70158 * 1.525 in
       if Qltb p 1 then Ok (0.5 * (p * p * ((s + 1) * p - s)))
       else let p := p - 2 in Ok (0.5 * (p * p * ((s + 1) * p + s) + 2)))%res
  | ease_in_bounce => bounce_in t d
  | ease_out_bounce => bounce_out t d
  | ease_in_out_bounce =>
      if Qltb t (d / 2)
      then (r <- bounce_in (t * 2) d ;; Ok (r * 0.5))%res
      else (r <- bounce_out (t * 2 - d) d ;; Ok (r * 0.5 + 1 * 0.5))%res
  | _ease_out_bounce_internal | _ease_in_bounce_internal => Raise TypeError
  | _ => Raise NotImplementedError
  end.

(* ------------------------------------------------------------------ *)
(** * Objects and the store *)
(* ------------------------------------------------------------------ *)

Inductive ab_class : Type := AbsoluteAnimationBase | DeltaAnimationBase.

(** A per-target instance: an [AbsoluteAnimationBase] or a
    [DeltaAnimationBase] object. *)
Record AnimationBase : Type := mkAnimationBase {
  ab_cls : ab_class;
  widget : nat;
  params : dict;
  duration : Q;
  animator : nat;
  alpha_function : alpha;
  generate_event : value;
  _frame_pointer : Q;
  _progress : Q;
  running : bool;
  _prop_list : list (string * (value * value));
  _saved_prop_list : dict;
  _initial_state : list (string * (value * value))
}.

Inductive anim_class : Type :=
| CAnimation | CSequenceAnimation | CParallelAnimation.

(** An [Animation] object, or one of its subclasses [SequenceAnimation] and
    [ParallelAnimation] (whose fields are unused in a plain [Animation]). *)
Record Animation : Type := mkAnimation {
  cls : anim_class;
  spec_duration : value;
  children : list (nat * nat);
  spec_params : dict;
  _animation_type : value;
  single_event : value;
  animations : list nat;
  anim_counter : nat;
  dispatch_counter : nat;
  on_complete_handlers : list nat
}.

(** A [Repeat] controller. *)
Record Repeat : Type := mkRepeat {
  rep_animations : nat;
  rep_single_event : bool;
  _repeat_counter : nat;
  _times : Z
}.

Inductive pyobj : Type :=
| OAnimation (s : nat)
| ORepeat (r : nat)
| OWidget (w : nat).

(** [dispatcher.dispatch_event(name, arg)] or, for [on_repeat],
    [dispatcher.dispatch_event(name, arg, count)]. *)
Inductive event : Type :=
| Dispatch (dispatcher : pyobj) (name : string) (arg : pyobj)
           (count : option nat).

Record World : Type := mkWorld {
  widgets : list dict;
  animobjs : list AnimationBase;
  anims : list Animation;
  repeats : list Repeat;
  clock : list (nat * nat);
  next_handle : nat;
  log : list event
}.

Definition empty_world : World := mkWorld [] [] [] [] [] 0 [].

(** ** Field updates *)

Definition set_running (b : bool) (a : AnimationBase) : AnimationBase :=
  mkAnimationBase (ab_cls a) (widget a) (params a) (duration a) (animator a)
    (alpha_function a) (generate_event a) (_frame_pointer a) (_progress a)
    b (_prop_list a) (_saved_prop_list a) (_initial_state a).

Definition set_frame (fp pr : Q) (a : AnimationBase) : AnimationBase :=
  mkAnimationBase (ab_cls a) (widget a) (params a) (duration a) (animator a)
    (alpha_function a) (generate_event a) fp pr
    (running a) (_prop_list a) (_saved_prop_list a) (_initial_state a).

Definition set_prop_list (pl : list (string * (value * value)))
  (a : AnimationBase) : AnimationBase :=
  mkAnimationBase (ab_cls a) (widget a) (params a) (duration a) (animator a)
    (alpha_function a) (generate_event a) (_frame_pointer a) (_progress a)
    (running a) pl (_saved_prop_list a) (_initial_state a).

Definition set_widget_ref (w : nat) (a : AnimationBase) : AnimationBase :=
  mkAnimationBase (ab_cls a) w (params a) (duration a) (animator a)
    (alpha_function a) (generate_event a) (_frame_pointer a) (_progress a)
    (running a) (_prop_list a) (_saved_prop_list a) (_initial_state a).

Definition set_children (c : list (nat * nat)) (s : Animation) : Animation :=
  mkAnimation (cls s) (spec_duration s) c (spec_params s) (_animation_type s)
    (single_event s) (animations s) (anim_counter s) (dispatch_counter s)
    (on_complete_handlers s).

Definition set_anim_counter (n : nat) (s : Animation) : Animation :=
  mkAnimation (cls s) (spec_duration s) (children s) (spec_params s)
    (_animation_type s) (single_event s) (animations s) n
    (dispatch_counter s) (on_complete_handlers s).

Definition set_dispatch_counter (n : nat) (s : Animation) : Animation :=
  mkAnimation (cls s) (spec_duration s) (children s) (spec_params s)
    (_animation_type s) (single_event s) (animations s) (anim_counter s)
    n (on_complete_handlers s).

Definition set_single_event (v : value) (s : Animation) : Animation :=
  mkAnimation (cls s) (spec_duration s) (children s) (spec_params s)
    (_animation_type s) v (animations s) (anim_counter s)
    (dispatch_counter s) (on_complete_handlers s).

Definition set_handlers (h : list nat) (s : Animation) : Animation :=
  mkAnimation (cls s) (spec_duration s) (children s) (spec_params s)
    (_animation_type s) (single_event s) (animations s) (anim_counter s)
    (dispatch_counter s) h.

Definition set_repeat_counter (n : nat) (r : Repeat) : Repeat :=
  mkRepeat (rep_animations r) (rep_single_event r) n (_times r).

Definition with_widgets (x : list dict) (W : World) : World :=
  mkWorld x (animobjs W) (anims W) (repeats W) (clock W) (next_handle W) (log W).

Definition with_animobjs (x : list AnimationBase) (W : World) : World :=
  mkWorld (widgets W) x (anims W) (repeats W) (clock W) (next_handle W) (log W).

Definition with_anims (x : list Animation) (W : World) : World :=
  mkWorld (widgets W) (animobjs W) x (repeats W) (clock W) (next_handle W) (log W).

Definition with_repeats (x : list Repeat) (W : World) : World :=
  mkWorld (widgets W) (animobjs W) (anims W) x (clock W) (next_handle W) (log W).

Definition with_clock (x : list (nat * nat)) (n : nat) (W : World) : World :=
  mkWorld (widgets W) (animobjs W) (anims W) (repeats W) x n (log W).

Definition with_log (x : list event) (W : World) : World :=
  mkWorld (widgets W) (animobjs W) (anims W) (repeats W) (clock W)
    (next_handle W) x.

(** ** Dictionaries keyed by an object ([Animation.children]) *)

Fixpoint children_get (c : list (nat * nat)) (w : nat) : option nat :=
  match c with
  | [] => None
  | (w', i) :: c' => if Nat.eqb w' w then Some i else children_get c' w
  end.

Fixpoint children_set (c : list (nat * nat)) (w i : nat) : list (nat * nat) :=
  match c with
  | [] => [(w, i)]
  | (w', i') :: c' =>
      if Nat.eqb w' w then (w, i) :: c' else (w', i') :: children_set c' w i
  end.

(** [del c[w]] *)
Definition children_del (c : list (nat * nat)) (w : nat) : list (nat * nat) :=
  filter (fun e => negb (Nat.eqb (fst e) w)) c.

Fixpoint list_set {A : Type} (l : list A) (i : nat) (a : A) : list A :=
  match l, i with
  | [], _ => []
  | _ :: l', O => a :: l'
  | x :: l', S i' => x :: list_set l' i' a
  end.

(* ------------------------------------------------------------------ *)
(** * Computations over the store *)
(* ------------------------------------------------------------------ *)

Definition M (A : Type) : Type := World -> result (A * World).

Definition ret {A} (a : A) : M A := fun W => Ok (a, W).

Definition bind {A B} (m : M A) (k : A -> M B) : M B :=
  fun W =>
    match m W with
    | Ok (a, W') => k a W'
    | Raise e => Raise e
    end.

Definition raise {A} (e : exn) : M A := fun _ => Raise e.

Definition lift {A} (r : result A) : M A :=
  fun W => match r with Ok a => Ok (a, W) | Raise e => Raise e end.

Definition gets {A} (f : World -> A) : M A := fun W => Ok (f W, W).

Definition modify (f : World -> World) : M unit := fun W => Ok (tt, f W).

Declare Scope m_scope.
Delimit Scope m_scope with M.
Notation "x <- c ;; k" := (bind c (fun x => k))
  (at level 61, c at next level, right associativity) : m_scope.
Notation "c ;;; k" := (bind c (fun _ => k))
  (at level 61, right associativity) : m_scope.
Open Scope m_scope.

(** [for x in l: body(x)] *)
Fixpoint forM_ {A} (l : list A) (body : A -> M unit) : M unit :=
  match l with
  | [] => ret tt
  | x :: l' => body x ;;; forM_ l' body
  end.

(** Dereference an object of a heap; a dangling index has no counterpart in
    Python and is reported as [ReferenceError]. *)
Definition deref {A} (heap : World -> list A) (i : nat) : M A :=
  fun W =>
    match nth_error (heap W) i with
    | Some a => Ok (a, W)
    | None => Raise ReferenceError
    end.

Definition get_animobj : nat -> M AnimationBase := deref animobjs.
Definition get_anim : nat -> M Animation := deref anims.
Definition get_repeat : nat -> M Repeat := deref repeats.
Definition get_widget : nat -> M dict := deref widgets.

Definition update_animobj (i : nat) (f : AnimationBase -> AnimationBase) : M unit :=
  a <- get_animobj i ;;
  modify (fun W => with_animobjs (list_set (animobjs W) i (f a)) W).

Definition update_anim (s : nat) (f : Animation -> Animation) : M unit :=
  a <- get_anim s ;;
  modify (fun W => with_anims (list_set (anims W) s (f a)) W).

Definition update_repeat (r : nat) (f : Repeat -> Repeat) : M unit :=
  a <- get_repeat r ;;
  modify (fun W => with_repeats (list_set (repeats W) r (f a)) W).

Definition new_animobj (a : AnimationBase) : M nat :=
  fun W => Ok (List.length (animobjs W), with_animobjs (animobjs W ++ [a]) W).

Definition new_anim (a : Animation) : M nat :=
  fun W => Ok (List.length (anims W), with_anims (anims W ++ [a]) W).

Definition new_repeat (r : Repeat) : M nat :=
  fun W => Ok (List.length (repeats W), with_repeats (repeats W ++ [r]) W).

Definition new_widget (attrs : dict) : M nat :=
  fun W => Ok (List.length (widgets W), with_widgets (widgets W ++ [attrs]) W).

(** Events are recorded in the order in which they are dispatched. *)
Definition emit (e : event) : M unit :=
  modify (fun W => with_log (log W ++ [e]) W).

(** [widget.dispatch_event(name, sender)]: the widget's own handlers are
    outside the engine. *)
Definition widget_dispatch_event (w : nat) (name : string) (sender : pyobj) : M unit :=
  emit (Dispatch (OWidget w) name sender None).

(* ------------------------------------------------------------------ *)
(** * The tick service *)
(* ------------------------------------------------------------------ *)

(** Modelled from the spec: the tick service ([pymt.clock], reached through
    [getClock()], is not among the sources). [schedule(callback, rate)]
    registers a callback and yields a handle, [unschedule(handle)] removes
    it. The registry [clock] holds the pairs (handle, instance) of the bound
    methods [instance._next_frame] that were scheduled. *)
Definition schedule_interval (callback : nat) : M unit :=
  modify (fun W =>
    with_clock (clock W ++ [(next_handle W, callback)]) (S (next_handle W)) W).

Definition unschedule (handle : nat) : M unit :=
  modify (fun W =>
    with_clock (filter (fun e => negb (Nat.eqb (fst e) handle)) (clock W))
      (next_handle W) W).

(* ------------------------------------------------------------------ *)
(** * [AnimationBase] and its two subclasses *)
(* ------------------------------------------------------------------ *)

Definition excluded_keys : list string :=
  [ "duration"; "anim1"; "anim2"; "generate_event"; "single_event"; "type";
    "alpha_function"; "d"; "f" ]%string.

Definition is_property (k : string) : bool :=
  negb (existsb (String.eqb k) excluded_keys).

(** The entries of [params] that name properties to animate. *)
Definition property_items (p : dict) : dict :=
  filter (fun kv => is_property (fst kv)) p.

(** [AnimationBase.__init__]: the part common to both subclasses. *)
Definition AnimationBase_init (c : ab_class) (widgetx : nat) (key_args : dict)
  (animator_ : nat) : result AnimationBase :=
  (d0 <- dict_item key_args "duration" ;;
   d <- py_float d0 ;;
   f <- (if dict_has key_args "f"
         then (n <- dict_item key_args "f" ;; AnimationAlpha_getattr n)
         else if dict_has key_args "alpha_function"
         then (n <- dict_item key_args "alpha_function" ;;
               AnimationAlpha_getattr n)
         else Ok linear) ;;
   ge <- (if dict_has key_args "generate_event"
          then dict_item key_args "generate_event"
          else Ok (VBool true)) ;;
   Ok (mkAnimationBase c widgetx key_args d animator_ f ge 0 0 false [] [] []))%res.

(** [temp_dict[each_key] = cval[each_key]] for each key. *)
Fixpoint restrict_into (acc cval : dict) (keys : list string) : result dict :=
  match keys with
  | [] => Ok acc
  | k :: ks =>
      (v <- dict_item cval k ;; restrict_into (dict_set acc k v) cval ks)%res
  end.

(** The (start, end) pair of an absolute animation for the live value
    [cval]. *)
Definition absolute_binding (cval target : value) : result (value * value) :=
  match cval with
  | VList _ | VTuple _ => Ok (cval, target)
  | VDict cd =>
      (keys <- iter_keys target ;;
       temp_dict <- restrict_into [] cd keys ;;
       Ok (VDict temp_dict, target))%res
  | _ => Ok (cval, target)
  end.

(** [DeltaAnimationBase._update_list]: used by reset to update a list type
    data. *)
Fixpoint update_list_from (i : nat) (ip_list : list value) (op_list : value)
  : result (list value) :=
  match ip_list with
  | [] => Ok []
  | x :: l' =>
      (y <- getitem_nat op_list i ;;
       s <- py_add x y ;;
       rest <- update_list_from (S i) l' op_list ;;
       Ok (s :: rest))%res
  end.

Definition _update_list (ip_list : list value) (op_list : value) : result value :=
  (temp_list <- update_list_from 0 ip_list op_list ;; Ok (VList temp_list))%res.

(** [DeltaAnimationBase._update_dict]: used by reset to update a dict type
    data. *)
Fixpoint update_dict_items (ip_items : dict) (op_dict : value) : result dict :=
  match ip_items with
  | [] => Ok []
  | (key, x) :: rest =>
      (y <- getitem_str op_dict key ;;
       v <- match x with
            | VList l | VTuple l => _update_list l y
            | _ => py_add x y
            end ;;
       r <- update_dict_items rest op_dict ;;
       Ok ((key, v) :: r))%res
  end.

Definition _update_dict (ip_dict : dict) (op_dict : value) : result value :=
  (temp_dict <- update_dict_items ip_dict op_dict ;; Ok (VDict temp_dict))%res.

(** The (start, end) pair of a delta animation for the live value [cval]. *)
Definition delta_binding (cval delta : value) : result (value * value) :=
  match cval with
  | VList l | VTuple l =>
      (e <- _update_list l delta ;; Ok (cval, e))%res
  | VDict cd =>
      (keys <- iter_keys delta ;;
       temp_dict <- restrict_into [] cd keys ;;
       e <- _update_dict temp_dict delta ;;
       Ok (VDict temp_dict, e))%res
  | _ => (e <- py_add cval delta ;; Ok (cval, e))%res
  end.

(** [AnimationBase._get_value_from] *)
Definition _get_value_from (attrs : dict) (prop : string) : result value :=
  dict_item attrs prop.

(** [for prop in self._prop_list: self._prop_list[prop] = binding(...)] *)
Fixpoint bind_props (binding : value -> value -> result (value * value))
  (attrs : dict) (items : dict) : result (list (string * (value * value))) :=
  match items with
  | [] => Ok []
  | (prop, x) :: rest =>
      (cval <- _get_value_from attrs prop ;;
       b <- binding cval x ;;
       r <- bind_props binding attrs rest ;;
       Ok ((prop, b) :: r))%res
  end.

(** [AbsoluteAnimationBase.__init__] *)
Definition AbsoluteAnimationBase_init (attrs : dict) (widgetx : nat)
  (key_args : dict) (animator_ : nat) : result AnimationBase :=
  (a <- AnimationBase_init AbsoluteAnimationBase widgetx key_args animator_ ;;
   pl <- bind_props absolute_binding attrs (property_items key_args) ;;
   Ok (mkAnimationBase (ab_cls a) (widget a) (params a) (duration a)
         (animator a) (alpha_function a) (generate_event a)
         (_frame_pointer a) (_progress a) (running a) pl [] pl))%res.

(** [DeltaAnimationBase.__init__] *)
Definition DeltaAnimationBase_init (attrs : dict) (widgetx : nat)
  (key_args : dict) (animator_ : nat) : result AnimationBase :=
  (a <- AnimationBase_init DeltaAnimationBase widgetx key_args animator_ ;;
   let saved := property_items key_args in
   pl <- bind_props delta_binding attrs saved ;;
   Ok (mkAnimationBase (ab_cls a) (widget a) (params a) (duration a)
         (animator a) (alpha_function a) (generate_event a)
         (_frame_pointer a) (_progress a) (running a) pl saved []))%res.

(** [for prop in saved: self._prop_list[prop] = binding(...)], assigning
    into an existing property table. *)
Fixpoint rebind_props (binding : value -> value -> result (value * value))
  (attrs : dict) (items : dict) (pl : list (string * (value * value)))
  : result (list (string * (value * value))) :=
  match items with
  | [] => Ok pl
  | (prop, x) :: rest =>
      (cval <- _get_value_from attrs prop ;;
       b <- binding cval x ;;
       rebind_props binding attrs rest (dict_set pl prop b))%res
  end.

(** [reset()]: a no-op for an absolute animation; a delta animation rewinds
    and recomputes its property table from the current state of the widget. *)
Definition AnimationBase_reset (i : nat) : M unit :=
  a <- get_animobj i ;;
  match ab_cls a with
  | AbsoluteAnimationBase => ret tt
  | DeltaAnimationBase =>
      update_animobj i (fun a => set_running false (set_frame 0 0 a)) ;;;
      attrs <- get_widget (widget a) ;;
      pl <- lift (rebind_props delta_binding attrs (_saved_prop_list a)
                    (_prop_list a)) ;;
      update_animobj i (set_prop_list pl)
  end.

(** The first loop of [_repopulate_attrib]: only sequence-valued
    properties. *)
Fixpoint repopulate_sequences (attrs : dict) (prop_keys : dict)
  (pl : list (string * (value * value)))
  : result (list (string * (value * value))) :=
  match prop_keys with
  | [] => Ok pl
  | (prop, target) :: rest =>
      (cval <- _get_value_from attrs prop ;;
       match cval with
       | VList _ | VTuple _ =>
           repopulate_sequences attrs rest (dict_set pl prop (cval, target))
       | _ => repopulate_sequences attrs rest pl
       end)%res
  end.

(** [AnimationBase._repopulate_attrib]: used by the sequencer to repopulate
    the property table from the current status of the widget. *)
Definition AnimationBase__repopulate_attrib (i : nat) (widgetx : nat) : M unit :=
  update_animobj i (set_widget_ref widgetx) ;;;
  a <- get_animobj i ;;
  let prop_keys := map (fun kv => (fst kv, snd (snd kv))) (_prop_list a) in
  attrs <- get_widget widgetx ;;
  pl1 <- lift (repopulate_sequences attrs prop_keys []) ;;
  pl2 <- lift (rebind_props absolute_binding attrs prop_keys pl1) ;;
  update_animobj i (set_prop_list pl2).

(** [AnimationBase._set_value_from] *)
Definition _set_value_from (w : nat) (v : value) (prop : string) : M unit :=
  attrs <- get_widget w ;;
  modify (fun W => with_widgets (list_set (widgets W) w (dict_set attrs prop v)) W).

(** [AnimationBase.update]: updates the properties of the widget for the
    eased progress [t]. *)
Definition AnimationBase_update (i : nat) (t : Q) : M unit :=
  a <- get_animobj i ;;
  forM_ (_prop_list a) (fun entry =>
    let '(prop, (vstart, vend)) := entry in
    v <- lift (_calculate_attribute_value vstart vend t) ;;
    _set_value_from (widget a) v prop).

(** [AnimationBase.start] *)
Definition AnimationBase_start (i : nat) : M unit :=
  a <- get_animobj i ;;
  if running a then ret tt
  else update_animobj i (set_running true) ;;; schedule_interval i.

(* ------------------------------------------------------------------ *)
(** * [Animation], [ComplexAnimation] and [Repeat]: construction and attach *)
(* ------------------------------------------------------------------ *)

(** [Animation.__init__]: the fields of the new object. Nothing in the
    keyword arguments is inspected beyond [d] and [duration]. *)
Definition Animation_fields (c : anim_class) (kwargs : dict) : Animation :=
  let kwargs := dict_setdefault kwargs "duration" (VFloat 1) in
  let kwargs := dict_setdefault kwargs "d" (VFloat 1) in
  let kwargs := dict_setdefault kwargs "type" (VStr "absolute") in
  let get k := match dict_get kwargs k with Some v => v | None => VNone end in
  let dur := if truthy (get "d"%string) then get "d"%string
             else get "duration"%string in
  mkAnimation c dur [] kwargs (get "type"%string) (VBool false) [] 0 0 [].

Definition Animation_init (kwargs : dict) : M nat :=
  new_anim (Animation_fields CAnimation kwargs).

(** [ComplexAnimation.__init__], with the keyword arguments [anim1] (one
    animation or a list of them) and [anim2] taken apart from the others. *)
Definition ComplexAnimation_init (c : anim_class) (anim1 : nat + list nat)
  (anim2 : nat) (kwargs : dict) : M nat :=
  let base := Animation_fields c kwargs in
  let kwargs := dict_setdefault kwargs "single_event" (VBool false) in
  let se := match dict_get kwargs "single_event" with
            | Some v => v
            | None => VNone
            end in
  let l := match anim1 with
           | inl a => [a]
           | inr l => l
           end in
  new_anim (mkAnimation (cls base) (spec_duration base) (children base)
              (spec_params base) (_animation_type base) se (l ++ [anim2])
              0 0 (on_complete_handlers base)).

(** [SequenceAnimation.__init__] sets [anim_counter = 0] and
    [ParallelAnimation.__init__] sets [dispatch_counter = 0]: one counter
    per composite object. *)
Definition SequenceAnimation_init := ComplexAnimation_init CSequenceAnimation.
Definition ParallelAnimation_init := ComplexAnimation_init CParallelAnimation.

(** [self + animation]: [Animation.__add__], overridden by
    [SequenceAnimation.__add__]. *)
Definition Animation_add (self animation : nat) : M nat :=
  sp <- get_anim self ;;
  match cls sp with
  | CSequenceAnimation =>
      SequenceAnimation_init (inr (animations sp)) animation []
  | _ => SequenceAnimation_init (inl self) animation []
  end.

(** [self & animation]: [Animation.__and__], overridden by
    [ParallelAnimation.__and__]. *)
Definition Animation_and (self animation : nat) : M nat :=
  sp <- get_anim self ;;
  match cls sp with
  | CParallelAnimation =>
      ParallelAnimation_init (inr (animations sp)) animation []
  | _ => ParallelAnimation_init (inl self) animation []
  end.

(** [ComplexAnimation.generate_single_event] *)
Definition generate_single_event (s : nat) (v : value) : M unit :=
  update_anim s (set_single_event v).

Definition is_absolute (ty : value) : bool :=
  match ty with
  | VStr s => String.eqb s "absolute"
  | _ => false
  end.

(** [AbsoluteAnimationBase(widget=..., key_args=..., animator=...)] or
    [DeltaAnimationBase(...)], by the animation type. *)
Definition make_animobj (animation_type : value) (widgetx : nat)
  (key_args : dict) (animator_ : nat) : M nat :=
  attrs <- get_widget widgetx ;;
  a <- lift (if is_absolute animation_type
             then AbsoluteAnimationBase_init attrs widgetx key_args animator_
             else DeltaAnimationBase_init attrs widgetx key_args animator_) ;;
  new_animobj a.

(** [Animation.set_widget]: creates a new instance for the widget, unless the
    animation already holds one. *)
Definition Animation_set_widget (s widgetx : nat) : M bool :=
  sp <- get_anim s ;;
  match children_get (children sp) widgetx with
  | Some _ => ret false
  | None =>
      i <- make_animobj (_animation_type sp) widgetx (spec_params sp) s ;;
      update_anim s (fun sp => set_children (children_set (children sp) widgetx i) sp) ;;;
      ret true
  end.

(** [animation.children[widgetx].is_running()], any exception read as
    "not running". *)
Definition child_is_running (W : World) (widgetx animation : nat) : bool :=
  match nth_error (anims W) animation with
  | Some sp =>
      match children_get (children sp) widgetx with
      | Some i =>
          match nth_error (animobjs W) i with
          | Some a => running a
          | None => false
          end
      | None => false
      end
  | None => false
  end.

(** [ComplexAnimation.set_widget] *)
Definition ComplexAnimation_set_widget (s widgetx : nat) : M bool :=
  sp <- get_anim s ;;
  busy <- gets (fun W => existsb (child_is_running W widgetx) (animations sp)) ;;
  if busy then ret false
  else
    forM_ (animations sp) (fun animation =>
      an <- get_anim animation ;;
      i <- make_animobj (_animation_type an) widgetx (spec_params an) s ;;
      update_anim animation
        (fun an => set_children (children_set (children an) widgetx i) an)) ;;;
    ret true.

(** [animation.set_widget(widgetx)], by the class of [animation]. *)
Definition set_widget (s widgetx : nat) : M bool :=
  sp <- get_anim s ;;
  match cls sp with
  | CAnimation => Animation_set_widget s widgetx
  | _ => ComplexAnimation_set_widget s widgetx
  end.

(** [Animation._del_child] *)
Definition _del_child (s child : nat) : M unit :=
  sp <- get_anim s ;;
  match children_get (children sp) child with
  | Some _ => update_anim s (fun sp => set_children (children_del (children sp) child) sp)
  | None => raise KeyError
  end.

(** [self.children[widget]] *)
Definition child_of (s w : nat) : M nat :=
  sp <- get_anim s ;;
  match children_get (children sp) w with
  | Some i => ret i
  | None => raise KeyError
  end.

(** [Animation._repopulate_attrib] *)
Definition Animation__repopulate_attrib (s w : nat) : M unit :=
  i <- child_of s w ;;
  AnimationBase__repopulate_attrib i w.

(** [Repeat.__init__]. Modelled from the spec: the event dispatcher
    ([pymt.event] is not among the sources) delivers an event synchronously
    to the listeners registered before it fires; the handler installed by
    [@self.animations.event] is recorded in [on_complete_handlers]. *)
Definition Repeat_init (animation : nat) (kwargs : list (string * Z)) : M nat :=
  let times := match dict_get kwargs "times" with
               | Some t => t
               | None => (-1)%Z
               end in
  r <- new_repeat (mkRepeat animation true 0 times) ;;
  update_anim animation
    (fun sp => set_handlers (on_complete_handlers sp ++ [r]) sp) ;;;
  ret r.

(** [Repeat.set_widget] *)
Definition Repeat_set_widget (r widgetx : nat) : M bool :=
  rp <- get_repeat r ;;
  _ <- set_widget (rep_animations rp) widgetx ;;
  ret true.

(** [Repeat.stop] *)
Definition Repeat_stop (r w : nat) : M unit :=
  widget_dispatch_event w "on_animation_complete" (ORepeat r) ;;;
  emit (Dispatch (ORepeat r) "on_complete" (OWidget w) None) ;;;
  update_repeat r (set_repeat_counter 0) ;;;
  rp <- get_repeat r ;;
  an <- get_anim (rep_animations rp) ;;
  match cls an with
  | CAnimation => _del_child (rep_animations rp) w
  | _ => ret tt
  end.

(* ------------------------------------------------------------------ *)
(** * Starting, stopping and repeating *)
(* ------------------------------------------------------------------ *)

(** [animation.reset(widget)], by the class of [animation]:
    [Animation.reset], [SequenceAnimation.reset] or
    [ParallelAnimation.reset]. *)
Fixpoint reset (fuel : nat) (s w : nat) {struct fuel} : M unit :=
  match fuel with
  | O => raise RecursionError
  | S fuel =>
      sp <- get_anim s ;;
      match cls sp with
      | CAnimation =>
          animobj <- child_of s w ;;
          AnimationBase_reset animobj
      | CSequenceAnimation =>
          update_anim s (set_anim_counter 0) ;;;
          sp <- get_anim s ;;
          forM_ (animations sp) (fun animation => reset fuel animation w)
      | CParallelAnimation =>
          update_anim s (set_dispatch_counter 0) ;;;
          sp <- get_anim s ;;
          forM_ (animations sp) (fun animation => reset fuel animation w)
      end
  end.

(** The methods below call one another (a completion starts the next child,
    a completion event re-enters the [Repeat] controller, which restarts the
    animation). [fuel] bounds the depth of these calls, as the interpreter's
    recursion limit does; running out of it raises [RecursionError]. *)
Fixpoint Animation_dispatch_event (fuel : nat) (s : nat) (name : string)
  (w : nat) {struct fuel} : M unit :=
  match fuel with
  | O => raise RecursionError
  | S fuel =>
      emit (Dispatch (OAnimation s) name (OWidget w) None) ;;;
      if String.eqb name "on_complete" then
        sp <- get_anim s ;;
        forM_ (on_complete_handlers sp) (fun r => Repeat_repeat fuel r w)
      else ret tt
  end

(** [Repeat.repeat]: internal function used by the controller to check for
    repetitions. *)
with Repeat_repeat (fuel : nat) (r w : nat) {struct fuel} : M unit :=
  match fuel with
  | O => raise RecursionError
  | S fuel =>
      update_repeat r (fun rp => set_repeat_counter (S (_repeat_counter rp)) rp) ;;;
      rp <- get_repeat r ;;
      emit (Dispatch (ORepeat r) "on_repeat" (OWidget w)
              (Some (_repeat_counter rp))) ;;;
      rp <- get_repeat r ;;
      if (_times rp =? -1)%Z then
        reset fuel (rep_animations rp) w ;;; Repeat_start fuel r w
      else if (Z.of_nat (_repeat_counter rp) <? _times rp)%Z then
        reset fuel (rep_animations rp) w ;;; Repeat_start fuel r w
      else Repeat_stop r w
  end

(** [Repeat.start] *)
with Repeat_start (fuel : nat) (r w : nat) {struct fuel} : M unit :=
  match fuel with
  | O => raise RecursionError
  | S fuel =>
      rp <- get_repeat r ;;
      (if Nat.eqb (_repeat_counter rp) 0
       then emit (Dispatch (ORepeat r) "on_start" (OWidget w) None)
       else ret tt) ;;;
      rp <- get_repeat r ;;
      start fuel (rep_animations rp) w
  end

(** [animation.start(widget)], by the class of [animation]. *)
with start (fuel : nat) (s w : nat) {struct fuel} : M unit :=
  match fuel with
  | O => raise RecursionError
  | S fuel =>
      sp <- get_anim s ;;
      match cls sp with
      | CAnimation => Animation_start fuel s w
      | CSequenceAnimation => SequenceAnimation_start fuel s w
      | CParallelAnimation => ParallelAnimation_start fuel s w
      end
  end

(** [Animation.start] *)
with Animation_start (fuel : nat) (s w : nat) {struct fuel} : M unit :=
  match fuel with
  | O => raise RecursionError
  | S fuel =>
      animobj <- child_of s w ;;
      AnimationBase_start animobj ;;;
      Animation_dispatch_event fuel s "on_start" w
  end

(** [SequenceAnimation.start] *)
with SequenceAnimation_start (fuel : nat) (s w : nat) {struct fuel} : M unit :=
  match fuel with
  | O => raise RecursionError
  | S fuel =>
      sp <- get_anim s ;;
      (if Nat.eqb (anim_counter sp) 0
       then Animation_dispatch_event fuel s "on_start" w
       else ret tt) ;;;
      sp <- get_anim s ;;
      if Nat.leb (List.length (animations sp)) (anim_counter sp) then
        update_anim s (set_anim_counter 0) ;;;
        Animation_dispatch_event fuel s "on_complete" w ;;;
        sp <- get_anim s ;;
        if truthy (single_event sp)
        then widget_dispatch_event w "on_animation_complete" (OAnimation s)
        else ret tt
      else
        match nth_error (animations sp) (anim_counter sp) with
        | Some current_anim => start fuel current_anim w
        | None => raise IndexError
        end
  end

(** [ParallelAnimation.start] *)
with ParallelAnimation_start (fuel : nat) (s w : nat) {struct fuel} : M unit :=
  match fuel with
  | O => raise RecursionError
  | S fuel =>
      sp <- get_anim s ;;
      (if Nat.eqb (dispatch_counter sp) 0
       then Animation_dispatch_event fuel s "on_start" w
       else ret tt) ;;;
      sp <- get_anim s ;;
      forM_ (animations sp) (fun animation => start fuel animation w)
  end.

(** [Animation.stop]: stops animating the widget and raises an event. *)
Definition Animation_stop (fuel : nat) (s w : nat) : M unit :=
  animobj <- child_of s w ;;
  a <- get_animobj animobj ;;
  if truthy (generate_event a) then
    widget_dispatch_event w "on_animation_complete" (OAnimation s) ;;;
    Animation_dispatch_event fuel s "on_complete" w
  else _del_child s w.

(** [SequenceAnimation.stop] *)
Definition SequenceAnimation_stop (fuel : nat) (s w : nat) : M unit :=
  sp <- get_anim s ;;
  current <- match nth_error (animations sp) (anim_counter sp) with
             | Some c => ret c
             | None => raise IndexError
             end ;;
  animobj <- child_of current w ;;
  a <- get_animobj animobj ;;
  (if truthy (generate_event a) && negb (truthy (single_event sp))
   then widget_dispatch_event w "on_animation_complete" (OAnimation s)
   else ret tt) ;;;
  update_anim s (fun sp => set_anim_counter (S (anim_counter sp)) sp) ;;;
  sp <- get_anim s ;;
  (if Nat.ltb (anim_counter sp) (List.length (animations sp)) then
     match nth_error (animations sp) (anim_counter sp) with
     | Some next => Animation__repopulate_attrib next w
     | None => raise IndexError
     end
   else ret tt) ;;;
  SequenceAnimation_start fuel s w.

(** [ParallelAnimation.stop] *)
Definition ParallelAnimation_stop (fuel : nat) (s w : nat)
  (animobj : option nat) : M unit :=
  update_anim s (fun sp => set_dispatch_counter (S (dispatch_counter sp)) sp) ;;;
  sp <- get_anim s ;;
  if Nat.eqb (dispatch_counter sp) (List.length (animations sp)) then
    Animation_dispatch_event fuel s "on_complete" w ;;;
    sp <- get_anim s ;;
    (if truthy (single_event sp)
     then widget_dispatch_event w "on_animation_complete" (OAnimation s)
     else ret tt) ;;;
    update_anim s (set_dispatch_counter 0)
  else
    match animobj with
    | None => raise AttributeError
    | Some i =>
        a <- get_animobj i ;;
        if truthy (generate_event a) && negb (truthy (single_event sp))
        then widget_dispatch_event w "on_animation_complete" (OAnimation s)
        else ret tt
    end.

(** [AnimationBase.stop]: stops animating the instance and tells its
    animator. The clock is not touched. *)
Definition AnimationBase_stop (fuel : nat) (i : nat) : M value :=
  a <- get_animobj i ;;
  if running a then
    update_animobj i (set_running false) ;;;
    a <- get_animobj i ;;
    an <- get_anim (animator a) ;;
    match cls an with
    | CParallelAnimation =>
        ParallelAnimation_stop fuel (animator a) (widget a) (Some i)
    | CSequenceAnimation => SequenceAnimation_stop fuel (animator a) (widget a)
    | CAnimation => Animation_stop fuel (animator a) (widget a)
    end ;;;
    ret (VBool false)
  else ret VNone.

(** [AnimationBase._next_frame]: calculates the progress of the animation
    and the frame pointer, and decides when to stop. The result is the value
    the callback returns to the clock. *)
Definition AnimationBase__next_frame (fuel : nat) (dt : Q) (i : nat) : M bool :=
  a <- get_animobj i ;;
  if Qle_bool (_frame_pointer a) (duration a) && running a then
    let fp := _frame_pointer a + dt in
    p <- lift (py_div fp (duration a)) ;;
    let p := if Qltb 1 p then 1 else p in
    update_animobj i (set_frame fp p) ;;;
    t <- lift (AnimationAlpha_call (alpha_function a) p fp (duration a)) ;;
    AnimationBase_update i t ;;;
    ret true
  else
    _ <- AnimationBase_stop fuel i ;;
    ret false.

(** Modelled from the spec: one round of the tick service. Every callback
    registered when the round starts is called with the elapsed time [dt];
    a callback that returns [False] is removed from the registry, which is
    the only way an instance of this engine ever leaves it. *)
Definition clock_tick (fuel : nat) (dt : Q) : M unit :=
  evs <- gets clock ;;
  forM_ evs (fun ev =>
    keep <- AnimationBase__next_frame fuel dt (snd ev) ;;
    if keep then ret tt else unschedule (fst ev)).

(** [Animation.animate]: animate the widgets given as parameters. *)
Definition animate (fuel : nat) (s : nat) (largs : list nat) : M unit :=
  forM_ largs (fun w => _ <- set_widget s w ;; start fuel s w).

(** A run of the tick service: one round per elapsed time in [dts]. *)
Definition run_ticks (fuel : nat) (dts : list Q) : M unit :=
  forM_ dts (clock_tick fuel).

(* ------------------------------------------------------------------ *)
(** * Observations used in the statements *)
(* ------------------------------------------------------------------ *)

(** [widget.prop], when the widget has the attribute. *)
Definition widget_attr (W : World) (w : nat) (prop : string) : option value :=
  match nth_error (widgets W) w with
  | Some attrs => dict_get attrs prop
  | None => None
  end.

(** The element loop of [_calculate_attribute_value], on its own. *)
Fixpoint interpolate_elements (ls le : list value) (t : Q) : result (list value) :=
  match ls, le with
  | x :: ls', y :: le' =>
      (r <- _calculate_attribute_value x y t ;;
       c <- construct (type_of x) r ;;
       rest <- interpolate_elements ls' le' t ;;
       Ok (c :: rest))%res
  | _, _ => Ok []
  end.

Definition is_sequence (v : value) : option (list value) :=
  match v with
  | VList l | VTuple l => Some l
  | _ => None
  end.



(** The result of a computation, when it succeeds. *)
Definition world_of {A} (r : result (A * World)) : World :=
  match r with
  | Ok (_, W) => W
  | Raise _ => empty_world
  end.

(** A widget with a tuple-valued property [pos] and an absolute animation
    of it, attached. *)
Definition tuple_scene : M unit :=
  w <- new_widget [("pos"%string, VTuple [VInt 0; VFloat 0])] ;;
  a <- Animation_init [("pos"%string, VTuple [VInt 10; VInt 20])] ;;
  _ <- set_widget a w ;;
  ret tt.

Definition tuple_world : World := world_of (tuple_scene empty_world).

(** The store after the first two statements of [Repeat.repeat]: the
    counter of the controller incremented and [on_repeat] dispatched. *)
Definition repeat_entered (r w : nat) (rp : Repeat) (W : World) : World :=
  with_log
    (log W ++ [Dispatch (ORepeat r) "on_repeat" (OWidget w)
                 (Some (S (_repeat_counter rp)))])
    (with_repeats
       (list_set (repeats W) r (set_repeat_counter (S (_repeat_counter rp)) rp))
       W).

(** The test of [Repeat.repeat], on the incremented counter. *)
Definition repeat_continues (rp : Repeat) : bool :=
  (_times rp =? -1)%Z || (Z.of_nat (S (_repeat_counter rp)) <? _times rp)%Z.


(** A widget with [x = 0] and an absolute animation of [x] to 100 in one
    second, attached and started. *)
Definition leaf_scene (fuel : nat) : M unit :=
  w <- new_widget [("x"%string, VInt 0)] ;;
  a <- Animation_init [("duration"%string, VInt 1); ("x"%string, VInt 100)] ;;
  animate fuel a [w].


(** The same scene after a run of three ticks, which completes it. *)
Definition leaf_finished_world : World :=
  world_of ((leaf_scene 8 ;;; run_ticks 8 [1 # 2; 1; 1]) empty_world).

(** The same scene with [generate_event=False], run to completion. *)
Definition silent_leaf_finished_world : World :=
  world_of
    ((w <- new_widget [("x"%string, VInt 0)] ;;
      a <- Animation_init [("duration"%string, VInt 1); ("x"%string, VInt 100);
                           ("generate_event"%string, VBool false)] ;;
      animate 8 a [w] ;;;
      run_ticks 8 [1 # 2; 1; 1]) empty_world).

(** A computation respects a relation between stores when the relation holds
    between the store it starts from and the store it ends in. *)
Definition respects (R : World -> World -> Prop) {A} (m : M A) : Prop :=
  forall W a W', m W = Ok (a, W') -> R W W'.

Definition block_respects (R : World -> World -> Prop) (fuel : nat) : Prop :=
  (forall s name w, respects R (Animation_dispatch_event fuel s name w)) /\
  (forall r w, respects R (Repeat_repeat fuel r w)) /\
  (forall r w, respects R (Repeat_start fuel r w)) /\
  (forall s w, respects R (start fuel s w)) /\
  (forall s w, respects R (Animation_start fuel s w)) /\
  (forall s w, respects R (SequenceAnimation_start fuel s w)) /\
  (forall s w, respects R (ParallelAnimation_start fuel s w)).

(** The objects at given indices of a store (for closed examples). *)
Definition animobj_at (W : World) (i : nat) : AnimationBase :=
  nth i (animobjs W)
    (mkAnimationBase AbsoluteAnimationBase 0 [] 0 0 linear VNone 0 0 false
       [] [] []).

Definition anim_at (W : World) (s : nat) : Animation :=
  nth s (anims W)
    (mkAnimation CAnimation VNone [] [] VNone VNone [] 0 0 []).

(** The leaf scene just before the tick that ends the run. *)
Definition leaf_ending_world : World :=
  world_of ((leaf_scene 8 ;;; run_ticks 8 [1 # 2; 1]) empty_world).

(** [Animation(duration=1, x=100) + Animation(duration=1, x=200)] *)
Definition two_step_sequence : M nat :=
  a1 <- Animation_init [("duration"%string, VInt 1); ("x"%string, VInt 100)] ;;
  a2 <- Animation_init [("duration"%string, VInt 1); ("x"%string, VInt 200)] ;;
  Animation_add a1 a2.

(** Two widgets with [x = 0] and the two-step sequence, which is animated on
    the widgets [targets] and driven by the ticks [dts]. The sequence is
    object 2, its children are objects 0 and 1. *)
Definition sequence_scene (fuel : nat) (targets : list nat) (dts : list Q)
  : M unit :=
  _ <- new_widget [("x"%string, VInt 0)] ;;
  _ <- new_widget [("x"%string, VInt 0)] ;;
  sq <- two_step_sequence ;;
  animate fuel sq targets ;;;
  run_ticks fuel dts.

Definition shared_sequence_world : World :=
  world_of (sequence_scene 8 [0; 1]%nat [1 # 2; 1; 1; 1; 1; 1; 1; 1] empty_world).

Definition solo_sequence_world : World :=
  world_of (sequence_scene 8 [1]%nat [1 # 2; 1; 1; 1; 1; 1; 1; 1] empty_world).

(** The shared scene when the first child has run its time on both widgets
    and no completion has been processed yet. *)
Definition shared_sequence_midway : World :=
  world_of (sequence_scene 8 [0; 1]%nat [1 # 2; 1] empty_world).

(** ** The signals of a [Repeat] controller *)

Inductive signal : Type :=
| OnRepeat (count : nat)
| OnComplete.

(** What an event of the log means for the controller [r]: its own
    [on_repeat] and [on_complete] events. *)
Definition signal_of (r : nat) (e : event) : option signal :=
  match e with
  | Dispatch (ORepeat r') name _ count =>
      if Nat.eqb r' r then
        if String.eqb name "on_repeat" then option_map OnRepeat count
        else if String.eqb name "on_complete" then Some OnComplete
        else None
      else None
  | _ => None
  end.

Fixpoint repeat_signals (r : nat) (l : list event) : list signal :=
  match l with
  | [] => []
  | e :: l' =>
      match signal_of r e with
      | Some s => s :: repeat_signals r l'
      | None => repeat_signals r l'
      end
  end.


(** [on_repeat] with the counts 1 to [k]. *)
Definition repeats_up_to (k : nat) : list signal := map OnRepeat (seq 1 k).

(** The invariant of a controller [r] limited to [n] repetitions: either it
    has repeated [k < n] times and not completed, or its signals begin with
    the [n] repetitions followed by [on_complete]. *)
Definition repeat_invariant (r n : nat) (W : World) : Prop :=
  exists rp,
    nth_error (repeats W) r = Some rp /\
    _times rp = Z.of_nat n /\
    ((_repeat_counter rp < n)%nat /\
       repeat_signals r (log W) = repeats_up_to (_repeat_counter rp)
     \/ exists rest,
          repeat_signals r (log W) = repeats_up_to n ++ OnComplete :: rest).

(** A widget with [x = 0], a delta animation of [x] by 10 in one second, and
    a controller repeating it three times, started and driven by ticks. *)
Definition repeat_scene (fuel : nat) (dts : list Q) : M unit :=
  w <- new_widget [("x"%string, VInt 0)] ;;
  a <- Animation_init [("type"%string, VStr "delta"); ("duration"%string, VInt 1);
                       ("x"%string, VInt 10)] ;;
  r <- Repeat_init a [("times"%string, 3%Z)] ;;
  _ <- Repeat_set_widget r w ;;
  Repeat_start fuel r w ;;;
  run_ticks fuel dts.


Definition repeat_ticks : list Q := [1 # 2; 1; 1; 1 # 2; 1; 1; 1 # 2; 1; 1].

(** ** Numbers in the statements *)

Definition is_number (v : value) : bool :=
  match v with
  | VInt _ | VFloat _ => true
  | _ => false
  end.

(** The rational a number stands for. *)
Definition to_Q (v : value) : Q :=
  match v with
  | VBool b => Q_of_bool b
  | VInt z => inject_Z z
  | VFloat q => q
  | _ => 0
  end.

(** [a == b] on numbers. *)
Definition py_eq (a b : value) : Prop := to_Q a == to_Q b.




(** ** The scene of a delta animation *)

Definition delta_params (d : Q) (delta : value) : dict :=
  [("type"%string, VStr "delta"); ("duration"%string, VFloat d);
   ("x"%string, delta)].

(** A widget with [x = S] and a delta animation of [x] by [delta] in [d]
    seconds, attached and started. *)
Definition delta_scene (fuel : nat) (d : Q) (S delta : value) : M unit :=
  w <- new_widget [("x"%string, S)] ;;
  a <- Animation_init (delta_params d delta) ;;
  animate fuel a [w].

(** [animation.reset(widget)] followed by [animation.start(widget)], for the
    animation and the widget of [delta_scene]. *)
Definition delta_again (fuel : nat) : M unit :=
  reset fuel 0 0 ;;; start fuel 0 0.








(** ** The scene of a sequence of two absolute animations *)

Definition absolute_params (d : Q) (target : value) : dict :=
  [("duration"%string, VFloat d); ("x"%string, target)].

(** A widget with [x = x0] and the sequence of [x] to 100 in [d1] seconds,
    then [x] to 200 in [d2] seconds, attached and started. The children are
    the animations 0 and 1, the sequence is the animation 2. *)
Definition two_step_scene (fuel : nat) (d1 d2 : Q) (x0 : value) : M unit :=
  w <- new_widget [("x"%string, x0)] ;;
  a1 <- Animation_init (absolute_params d1 (VInt 100)) ;;
  a2 <- Animation_init (absolute_params d2 (VInt 200)) ;;
  sq <- Animation_add a1 a2 ;;
  animate fuel sq [w].














(* ------------------------------------------------------------------ *)
(** * Further observations *)
(* ------------------------------------------------------------------ *)

(** The item loop of [_calculate_attribute_value], on its own. *)
Fixpoint interpolate_items (ds : list (string * value)) (vend : value) (t : Q)
  : result dict :=
  match ds with
  | [] => Ok []
  | (k, x) :: ds' =>
      (y <- getitem_str vend k ;;
       r <- _calculate_attribute_value x y t ;;
       c <- construct (type_of x) r ;;
       rest <- interpolate_items ds' vend t ;;
       Ok ((k, c) :: rest))%res
  end.



(** The methods that manage an animation without advancing it: stopping an
    instance, starting or resetting an animation on a widget, attaching a
    widget, starting or re-entering a controller. [managed fuel W W']
    says that one of them leads from [W] to [W']. *)
Definition managed (fuel : nat) (W W' : World) : Prop :=
  (exists i v, AnimationBase_stop fuel i W = Ok (v, W')) \/
  (exists s w, start fuel s w W = Ok (tt, W')) \/
  (exists s w, reset fuel s w W = Ok (tt, W')) \/
  (exists s w b, set_widget s w W = Ok (b, W')) \/
  (exists r w, Repeat_start fuel r w W = Ok (tt, W')) \/
  (exists r w, Repeat_repeat fuel r w W = Ok (tt, W')).

(** A leaf animation on a world with one widget, for closed examples: the
    duration is given as the keyword [duration]. *)
Definition leaf_with_duration (dur : value) : M unit :=
  w <- new_widget [("x"%string, VInt 0)] ;;
  a <- Animation_init [("duration"%string, dur); ("x"%string, VInt 100)] ;;
  animate 8 a [w].

(** No attribute of any widget differs between two stores. *)
Definition same_widgets (W W' : World) : Prop := widgets W' = widgets W.

(** Three plain animations, as operands of [+] and [&]. *)
Definition three_animations : M unit :=
  _ <- Animation_init [("x"%string, VInt 100)] ;;
  _ <- Animation_init [("y"%string, VInt 200)] ;;
  _ <- Animation_init [("rotation"%string, VInt 60)] ;;
  ret tt.

Definition three_animations_world : World :=
  world_of (three_animations empty_world).

Definition three_animations_world_with_widget : World :=
  world_of ((three_animations ;;;
             _ <- new_widget [("x"%string, VInt 0); ("y"%string, VInt 0);
                              ("rotation"%string, VInt 0)] ;;
             ret tt) empty_world).

(** The value of a computation that succeeds, a default otherwise (for
    closed examples). *)
Definition ok_or {A} (d : A) (r : result A) : A :=
  match r with
  | Ok a => a
  | Raise _ => d
  end.

(** Keyword arguments with reserved names among the properties, and the
    absolute instance made from them for a widget with [x = 0]. *)
Definition mixed_kwargs : dict :=
  [("duration"%string, VInt 1); ("x"%string, VInt 100);
   ("d"%string, VFloat 1); ("type"%string, VStr "absolute")].

Definition mixed_instance : AnimationBase :=
  ok_or (animobj_at empty_world 0)
    (AbsoluteAnimationBase_init [("x"%string, VInt 0)] 0 mixed_kwargs 0).

(** The invariant of a controller [r] that repeats for ever
    ([times = -1]): its signals are the repetitions counted so far, and no
    completion. *)
Definition endless_invariant (r : nat) (W : World) : Prop :=
  exists rp,
    nth_error (repeats W) r = Some rp /\
    _times rp = (-1)%Z /\
    repeat_signals r (log W) = repeats_up_to (_repeat_counter rp).

(** The store of [repeat_scene] with a controller constructed without
    [times]. *)
Definition endless_constructed_world : World :=
  world_of
    ((w <- new_widget [("x"%string, VInt 0)] ;;
      a <- Animation_init [("type"%string, VStr "delta");
                           ("duration"%string, VInt 1); ("x"%string, VInt 10)] ;;
      Repeat_init a []) empty_world).

(** ** The scene of two absolute animations in parallel *)

Definition property_params (prop : string) (d : Q) (target : value) : dict :=
  [("duration"%string, VFloat d); (prop, target)].

(** A widget with [x = x0] and [y = y0], and the parallel composition of
    [x] to [tx] in [d1] seconds and [y] to [ty] in [d2] seconds, with
    [generate_single_event(se)], attached and started. The children are
    the animations 0 and 1, the composition is the animation 2. *)
Definition parallel_scene (fuel : nat) (se : bool) (d1 d2 : Q)
  (tx ty x0 y0 : value) : M unit :=
  w <- new_widget [("x"%string, x0); ("y"%string, y0)] ;;
  a1 <- Animation_init (property_params "x" d1 tx) ;;
  a2 <- Animation_init (property_params "y" d2 ty) ;;
  pa <- Animation_and a1 a2 ;;
  generate_single_event pa (VBool se) ;;;
  animate fuel pa [w].











(** Animation [c] holds for widget [w] a new instance whose animator is
    [s]: not running, at frame 0, with one binding per property of [c]. *)
Definition bound_to (W : World) (s w c : nat) : Prop :=
  exists spc i a,
    nth_error (anims W) c = Some spc /\
    children_get (children spc) w = Some i /\
    nth_error (animobjs W) i = Some a /\
    animator a = s /\ widget a = w /\ running a = false /\
    _frame_pointer a = 0 /\
    map fst (_prop_list a) = map fst (property_items (spec_params spc)).

(** A widget, two leaves, their sequence, for closed examples; the sequence
    is the animation 2. *)
Definition sequence_unattached_world : World :=
  world_of
    ((w <- new_widget [("x"%string, VInt 0)] ;;
      a1 <- Animation_init (absolute_params 1 (VInt 100)) ;;
      a2 <- Animation_init (absolute_params 1 (VInt 200)) ;;
      Animation_add a1 a2) empty_world).

(** A widget with [x = 0] and the sequence of an absolute animation of [x]
    to 100 and a delta animation of [x] by 10, attached, started and driven
    by [dts]. The children are the animations 0 and 1, the sequence is the
    animation 2. *)
Definition mixed_sequence_scene (fuel : nat) (dts : list Q) : M unit :=
  w <- new_widget [("x"%string, VInt 0)] ;;
  a1 <- Animation_init (absolute_params 1 (VInt 100)) ;;
  a2 <- Animation_init (delta_params 1 (VInt 10)) ;;
  sq <- Animation_add a1 a2 ;;
  animate fuel sq [w] ;;;
  run_ticks fuel dts.

(** The first child has brought [x] to 100 and has not stopped yet. *)
Definition mixed_sequence_midway : World :=
  world_of (mixed_sequence_scene 8 [1 # 2; 1] empty_world).

(* ------------------------------------------------------------------ *)
(** * Basic facts: results, dictionaries, heaps *)
(* ------------------------------------------------------------------ *)



Lemma rbind_Ok {A B} (r : result A) (k : A -> result B) (b : B) :
  rbind r k = Ok b -> exists a, r = Ok a /\ k a = Ok b.
Proof. destruct r as [a|e]; simpl; [eauto | discriminate]. Qed.

Lemma bind_Ok {A B} (m : M A) (k : A -> M B) W b W' :
  bind m k W = Ok (b, W') ->
  exists a W1, m W = Ok (a, W1) /\ k a W1 = Ok (b, W').
Proof.
  unfold bind. destruct (m W) as [[a W1]|e]; [eauto | discriminate].
Qed.

Lemma lift_Ok {A} (r : result A) W a W' :
  lift r W = Ok (a, W') -> r = Ok a /\ W' = W.
Proof. unfold lift. destruct r; intros H; inversion H; auto. Qed.

Lemma deref_Ok {A} (heap : World -> list A) i W a W' :
  deref heap i W = Ok (a, W') -> nth_error (heap W) i = Some a /\ W' = W.
Proof.
  unfold deref. destruct (nth_error (heap W) i); intros H; inversion H; auto.
Qed.

Lemma dict_get_set_same {V} (d : list (string * V)) k v :
  dict_get (dict_set d k v) k = Some v.
Proof.
  induction d as [|[k' v'] d IH]; simpl.
  - now rewrite String.eqb_refl.
  - destruct (String.eqb k' k) eqn:E; simpl.
    + now rewrite String.eqb_refl.
    + now rewrite E.
Qed.

Lemma dict_get_set_other {V} (d : list (string * V)) k k' v :
  k' <> k -> dict_get (dict_set d k' v) k = dict_get d k.
Proof.
  intros Hne. induction d as [|[k0 v0] d IH]; simpl.
  - destruct (String.eqb k' k) eqn:E; [apply String.eqb_eq in E; contradiction | reflexivity].
  - destruct (String.eqb k0 k') eqn:E; simpl.
    + apply String.eqb_eq in E; subst k0.
      destruct (String.eqb k' k) eqn:E'; [apply String.eqb_eq in E'; contradiction | reflexivity].
    + destruct (String.eqb k0 k); [reflexivity | exact IH].
Qed.

Lemma nth_error_list_set_same {A} (l : list A) i a x :
  nth_error l i = Some x -> nth_error (list_set l i a) i = Some a.
Proof.
  revert i; induction l as [|y l IH]; intros [|i]; simpl; try discriminate; auto.
Qed.

Lemma nth_error_list_set_other {A} (l : list A) i j a :
  i <> j -> nth_error (list_set l i a) j = nth_error l j.
Proof.
  revert i j; induction l as [|y l IH]; intros [|i] [|j] H; simpl; try reflexivity; try congruence.
  apply IH; congruence.
Qed.

Lemma length_list_set {A} (l : list A) i a :
  List.length (list_set l i a) = List.length l.
Proof.
  revert i; induction l as [|y l IH]; intros [|i]; simpl; auto.
Qed.

(* ------------------------------------------------------------------ *)
(** * Interpolation of sequences *)
(* ------------------------------------------------------------------ *)

Lemma construct_type ty r c : construct ty r = Ok c -> type_of c = ty.
Proof.
  destruct ty, r; simpl; intros H; inversion H; reflexivity.
Qed.

Lemma calculate_sequence ls vend t :
  _calculate_attribute_value (VTuple ls) vend t =
    match is_sequence vend with
    | Some le =>
        if Nat.eqb (List.length ls) (List.length le)
        then (vs <- interpolate_elements ls le t ;; Ok (VList vs))%res
        else Raise AssertionError
    | None => Raise AssertionError
    end.
Proof.
  assert (E : forall le,
    (if Nat.eqb (List.length ls) (List.length le)
     then _calculate_attribute_value (VTuple ls) (VTuple le) t
     else Raise AssertionError) =
    (if Nat.eqb (List.length ls) (List.length le)
     then (vs <- interpolate_elements ls le t ;; Ok (VList vs))%res
     else Raise AssertionError)).
  { intros le. simpl.
    destruct (Nat.eqb (List.length ls) (List.length le)); [|reflexivity].
    match goal with
    | |- rbind (?F ls le) _ = _ =>
        assert (E : forall a b, F a b = interpolate_elements a b t)
    end.
    { induction a as [|x a IH]; intros [|y b]; try reflexivity.
      simpl. rewrite IH. reflexivity. }
    rewrite E. reflexivity. }
  destruct vend as [ | | | | |le|le| ]; try reflexivity.
  - specialize (E le). simpl in *.
    destruct (Nat.eqb (List.length ls) (List.length le)); [exact E|reflexivity].
  - specialize (E le). simpl in *.
    destruct (Nat.eqb (List.length ls) (List.length le)); [exact E|reflexivity].
Qed.

Lemma interpolate_elements_kinds ls le t vs :
  List.length ls = List.length le ->
  interpolate_elements ls le t = Ok vs ->
  Forall2 (fun x c => type_of c = type_of x) ls vs.
Proof.
  revert le vs; induction ls as [|x ls IH]; intros [|y le] vs Hlen H;
    simpl in *; try discriminate.
  - inversion H; constructor.
  - apply rbind_Ok in H as (r & _ & H).
    apply rbind_Ok in H as (c & Hc & H).
    apply rbind_Ok in H as (rest & Hrest & H).
    inversion H; subst. constructor.
    + eapply construct_type; eauto.
    + apply (IH le); [lia | assumption].
Qed.

(** Interpolating from a tuple yields a list whose elements have the types
    of the elements of the tuple. *)
Lemma calculate_tuple_gives_list ls vend t v :
  _calculate_attribute_value (VTuple ls) vend t = Ok v ->
  exists vs, v = VList vs /\
    Forall2 (fun x c => type_of c = type_of x) ls vs.
Proof.
  rewrite calculate_sequence.
  destruct (is_sequence vend) as [le|]; [|discriminate].
  destruct (Nat.eqb (List.length ls) (List.length le)) eqn:E; [|discriminate].
  apply Nat.eqb_eq in E. intros H.
  apply rbind_Ok in H as (vs & Hvs & H). inversion H; subst.
  exists vs; split; [reflexivity|].
  eapply interpolate_elements_kinds; eauto.
Qed.

Lemma widget_attr_set_same W w attrs prop v :
  nth_error (widgets W) w = Some attrs ->
  widget_attr (with_widgets (list_set (widgets W) w (dict_set attrs prop v)) W)
    w prop = Some v.
Proof.
  intros H. unfold widget_attr, with_widgets; cbn [widgets].
  erewrite nth_error_list_set_same by eassumption. apply dict_get_set_same.
Qed.

Lemma widget_attr_set_other W w attrs prop prop' v :
  nth_error (widgets W) w = Some attrs -> prop' <> prop ->
  widget_attr (with_widgets (list_set (widgets W) w (dict_set attrs prop' v)) W)
    w prop = widget_attr W w prop.
Proof.
  intros H Hne. unfold widget_attr, with_widgets; cbn [widgets].
  erewrite nth_error_list_set_same by eassumption. rewrite H.
  now apply dict_get_set_other.
Qed.

(** The loop of [AnimationBase.update] over the property table: a property
    that is not in the table keeps its value, and a property whose start
    value is a tuple receives a list. *)
Lemma update_loop w t (l : list (string * (value * value))) :
  forall W W',
  forM_ l (fun entry =>
    let '(prop, (vstart, vend)) := entry in
    v <- lift (_calculate_attribute_value vstart vend t) ;;
    _set_value_from w v prop) W = Ok (tt, W') ->
  (forall prop, ~ In prop (map fst l) -> widget_attr W' w prop = widget_attr W w prop) /\
  (NoDup (map fst l) ->
   forall prop ls vend, In (prop, (VTuple ls, vend)) l ->
   exists vs, widget_attr W' w prop = Some (VList vs) /\
     Forall2 (fun x c => type_of c = type_of x) ls vs).
Proof.
  induction l as [|[p [vs0 ve0]] l IH]; intros W W' H; simpl in H.
  - inversion H; subst. split; [reflexivity|]. intros _ ? ? ? [].
  - apply bind_Ok in H as ([] & W1 & Hbody & Hrest).
    apply bind_Ok in Hbody as (v & W0 & Hcalc & Hset).
    apply lift_Ok in Hcalc as [Hcalc ->].
    unfold _set_value_from in Hset.
    apply bind_Ok in Hset as (attrs & W0' & Hget & Hmod).
    apply deref_Ok in Hget as [Hget ->].
    unfold modify in Hmod. inversion Hmod; subst W1; clear Hmod.
    apply IH in Hrest as [Hframe Htuple]. split.
    + intros prop Hnot. simpl in Hnot.
      rewrite Hframe by tauto.
      apply widget_attr_set_other; [assumption | tauto].
    + intros Hnd prop ls vend Hin. simpl in Hnd. inversion Hnd as [|? ? Hp Hnd']; subst.
      destruct Hin as [Heq | Hin].
      * inversion Heq; subst.
        apply calculate_tuple_gives_list in Hcalc as (vs & -> & Hk).
        exists vs. split; [|exact Hk].
        rewrite Hframe by exact Hp.
        now apply widget_attr_set_same.
      * eapply Htuple; eassumption.
Qed.

(** C10. For every animated property whose start value is a tuple, the
    interpolation of a tick ([AnimationBase.update]) stores a list, not a
    tuple, in the target: every element has the type of the corresponding
    element of the start value, but the container has become a list. *)
Theorem update_writes_list_for_tuple :
  forall (i : nat) (t : Q) (W W' : World) (a : AnimationBase)
         (prop : string) (ls : list value) (vend : value),
  nth_error (animobjs W) i = Some a ->
  NoDup (map fst (_prop_list a)) ->
  In (prop, (VTuple ls, vend)) (_prop_list a) ->
  AnimationBase_update i t W = Ok (tt, W') ->
  exists vs, widget_attr W' (widget a) prop = Some (VList vs) /\
    Forall2 (fun x c => type_of c = type_of x) ls vs.
Proof.
  intros i t W W' a prop ls vend Ha Hnd Hin H.
  unfold AnimationBase_update in H.
  apply bind_Ok in H as (a' & W0 & Hget & H).
  apply deref_Ok in Hget as [Hget ->].
  rewrite Ha in Hget; inversion Hget; subst a'.
  apply update_loop in H as [_ Htuple].
  eapply Htuple; eauto.
Qed.

Lemma update_writes_list_for_tuple_witness :
  exists vs,
    widget_attr (world_of (AnimationBase_update 0 (1 # 2) tuple_world)) 0 "pos"
      = Some (VList vs) /\
    Forall2 (fun x c => type_of c = type_of x) [VInt 0; VFloat 0] vs.
Proof.
  apply (@update_writes_list_for_tuple 0 (1 # 2) tuple_world
           (world_of (AnimationBase_update 0 (1 # 2) tuple_world))
           (match nth_error (animobjs tuple_world) 0 with
            | Some a => a
            | None => mkAnimationBase AbsoluteAnimationBase 0 [] 0 0 linear
                        VNone 0 0 false [] [] []
            end)
           "pos" [VInt 0; VFloat 0] (VTuple [VInt 10; VInt 20])).
  - reflexivity.
  - vm_compute. repeat constructor. intros [].
  - vm_compute. left. reflexivity.
  - vm_compute. reflexivity.
Defined.

(* ------------------------------------------------------------------ *)
(** * Stopping an instance that is not running *)
(* ------------------------------------------------------------------ *)

Lemma AnimationBase_stop_not_running fuel i W a :
  nth_error (animobjs W) i = Some a ->
  running a = false ->
  AnimationBase_stop fuel i W = Ok (VNone, W).
Proof.
  intros Ha Hr.
  unfold AnimationBase_stop, bind, get_animobj, deref.
  rewrite Ha, Hr. reflexivity.
Qed.

(** C9. [stop()] on an instance that is already stopped does nothing: the
    store (instances, targets, registry of the clock) is unchanged and no
    notification or event is dispatched (the log is part of the store). *)
Theorem stop_when_stopped_is_noop :
  forall (fuel i : nat) (W : World) (a : AnimationBase),
  nth_error (animobjs W) i = Some a ->
  running a = false ->
  AnimationBase_stop fuel i W = Ok (VNone, W).
Proof.
  intros fuel i W a Ha Hr. now apply AnimationBase_stop_not_running with a.
Qed.

Lemma stop_when_stopped_is_noop_witness :
  AnimationBase_stop 0 0 tuple_world = Ok (VNone, tuple_world).
Proof.
  apply (@stop_when_stopped_is_noop 0 0 tuple_world
           (match nth_error (animobjs tuple_world) 0 with
            | Some a => a
            | None => mkAnimationBase AbsoluteAnimationBase 0 [] 0 0 linear
                        VNone 0 0 false [] [] []
            end)).
  - reflexivity.
  - reflexivity.
Defined.

(* ------------------------------------------------------------------ *)
(** * Construction of a spec *)
(* ------------------------------------------------------------------ *)

Lemma dict_get_setdefault (d : dict) k k' v' :
  dict_get (dict_setdefault d k' v') k =
    if String.eqb k' k
    then match dict_get d k with Some v => Some v | None => Some v' end
    else dict_get d k.
Proof.
  unfold dict_setdefault, dict_has.
  destruct (String.eqb k' k) eqn:E.
  - apply String.eqb_eq in E; subst k'.
    destruct (dict_get d k) eqn:G; [exact G | apply dict_get_set_same].
  - apply String.eqb_neq in E.
    destruct (dict_get d k'); [reflexivity | now apply dict_get_set_other].
Qed.

Lemma nth_error_snoc {A} (l : list A) (x : A) :
  nth_error (l ++ [x]) (List.length l) = Some x.
Proof.
  rewrite nth_error_app2 by lia. now rewrite Nat.sub_diag.
Qed.

Lemma params_of_new_animation c kwargs k :
  dict_get (spec_params (Animation_fields c kwargs)) k =
    if String.eqb "type" k
    then match dict_get kwargs k with Some v => Some v | None => Some (VStr "absolute") end
    else if String.eqb "d" k
    then match dict_get kwargs k with Some v => Some v | None => Some (VFloat 1) end
    else if String.eqb "duration" k
    then match dict_get kwargs k with Some v => Some v | None => Some (VFloat 1) end
    else dict_get kwargs k.
Proof.
  unfold Animation_fields; cbn [spec_params].
  rewrite !dict_get_setdefault.
  destruct (String.eqb "type" k) eqn:E1.
  - apply String.eqb_eq in E1; subst k. reflexivity.
  - destruct (String.eqb "d" k) eqn:E2.
    + apply String.eqb_eq in E2; subst k. reflexivity.
    + reflexivity.
Qed.

(** C6, as the code has it. Constructing an [Animation] performs no
    validation of the duration: it succeeds for every dictionary of keyword
    arguments, a non-positive duration included, and a given duration is
    stored unchanged in the parameters of the new spec. *)
Theorem animation_construction_never_fails :
  forall (kwargs : dict) (W : World),
  exists sp,
    Animation_init kwargs W =
      Ok (List.length (anims W), with_anims (anims W ++ [sp]) W) /\
    cls sp = CAnimation /\
    forall v, dict_get kwargs "duration" = Some v ->
              dict_get (spec_params sp) "duration" = Some v.
Proof.
  intros kwargs W. exists (Animation_fields CAnimation kwargs).
  split; [reflexivity|]. split; [reflexivity|].
  intros v Hv. rewrite params_of_new_animation. simpl. now rewrite Hv.
Qed.

(** C6, counterexample: a spec of duration 0 is constructed without any
    error. *)
Lemma zero_duration_is_accepted :
  Animation_init [("duration"%string, VInt 0); ("x"%string, VInt 100)] empty_world
    <> Raise (Exn "InvalidDurationError") /\
  exists s W,
    Animation_init [("duration"%string, VInt 0); ("x"%string, VInt 100)] empty_world
      = Ok (s, W).
Proof.
  split; [discriminate|]. eexists; eexists; reflexivity.
Qed.






(* ------------------------------------------------------------------ *)
(** * Inversion of the operations of the store *)
(* ------------------------------------------------------------------ *)

Lemma ret_Ok {A} (a b : A) W W' : ret a W = Ok (b, W') -> b = a /\ W' = W.
Proof. unfold ret; intros H; inversion H; auto. Qed.

Lemma modify_Ok f W u W' : modify f W = Ok (u, W') -> W' = f W.
Proof. unfold modify; intros H; inversion H; auto. Qed.

Lemma gets_Ok {A} (f : World -> A) W a W' :
  gets f W = Ok (a, W') -> a = f W /\ W' = W.
Proof. unfold gets; intros H; inversion H; auto. Qed.

Lemma update_animobj_Ok i f W u W' :
  update_animobj i f W = Ok (u, W') ->
  exists a, nth_error (animobjs W) i = Some a /\
            W' = with_animobjs (list_set (animobjs W) i (f a)) W.
Proof.
  unfold update_animobj. intros H.
  apply bind_Ok in H as (a & W1 & Hg & Hm).
  apply deref_Ok in Hg as [Hg ->]. apply modify_Ok in Hm. eauto.
Qed.

Lemma update_anim_Ok s f W u W' :
  update_anim s f W = Ok (u, W') ->
  exists a, nth_error (anims W) s = Some a /\
            W' = with_anims (list_set (anims W) s (f a)) W.
Proof.
  unfold update_anim. intros H.
  apply bind_Ok in H as (a & W1 & Hg & Hm).
  apply deref_Ok in Hg as [Hg ->]. apply modify_Ok in Hm. eauto.
Qed.

Lemma update_repeat_Ok r f W u W' :
  update_repeat r f W = Ok (u, W') ->
  exists a, nth_error (repeats W) r = Some a /\
            W' = with_repeats (list_set (repeats W) r (f a)) W.
Proof.
  unfold update_repeat. intros H.
  apply bind_Ok in H as (a & W1 & Hg & Hm).
  apply deref_Ok in Hg as [Hg ->]. apply modify_Ok in Hm. eauto.
Qed.

Lemma emit_Ok e W u W' :
  emit e W = Ok (u, W') -> W' = with_log (log W ++ [e]) W.
Proof. unfold emit. intros H. apply modify_Ok in H. exact H. Qed.

Lemma raise_Ok {A} e W (x : A * World) : raise e W = Ok x -> False.
Proof. discriminate. Qed.

(** Decomposition of a successful computation into its steps. *)
Ltac inv_step H :=
  lazymatch type of H with
  | bind _ _ _ = Ok _ =>
      let a := fresh "a" in let W := fresh "W" in
      let H1 := fresh "Hs" in let H2 := fresh "Hk" in
      apply bind_Ok in H as (a & W & H1 & H2); inv_step H1; inv_step H2
  | ret _ _ = Ok _ => apply ret_Ok in H as [? ?]; subst
  | raise _ _ = Ok _ => apply raise_Ok in H; contradiction
  | Raise _ = Ok _ => discriminate H
  | lift _ _ = Ok _ => apply lift_Ok in H as [H ?]; subst
  | get_anim _ _ = Ok _ => apply deref_Ok in H as [H ?]; subst
  | get_animobj _ _ = Ok _ => apply deref_Ok in H as [H ?]; subst
  | get_repeat _ _ = Ok _ => apply deref_Ok in H as [H ?]; subst
  | get_widget _ _ = Ok _ => apply deref_Ok in H as [H ?]; subst
  | deref _ _ _ = Ok _ => apply deref_Ok in H as [H ?]; subst
  | gets _ _ = Ok _ => apply gets_Ok in H as [? ?]; subst
  | modify _ _ = Ok _ => apply modify_Ok in H; subst
  | emit _ _ = Ok _ => apply emit_Ok in H; subst
  | widget_dispatch_event _ _ _ _ = Ok _ => apply emit_Ok in H; subst
  | update_anim _ _ _ = Ok _ =>
      let a := fresh "a" in let E := fresh "E" in
      apply update_anim_Ok in H as (a & E & ?); subst
  | update_animobj _ _ _ = Ok _ =>
      let a := fresh "a" in let E := fresh "E" in
      apply update_animobj_Ok in H as (a & E & ?); subst
  | update_repeat _ _ _ = Ok _ =>
      let a := fresh "a" in let E := fresh "E" in
      apply update_repeat_Ok in H as (a & E & ?); subst
  | _ => idtac
  end.

(** The same, for every hypothesis, taking apart the tests met on the way. *)
Ltac inv_all :=
  repeat match goal with
    | H : bind _ _ _ = Ok _ |- _ => inv_step H
    | H : ret _ _ = Ok _ |- _ => inv_step H
    | H : raise _ _ = Ok _ |- _ => inv_step H
    | H : Raise _ = Ok _ |- _ => discriminate H
    | H : lift _ _ = Ok _ |- _ => inv_step H
    | H : deref _ _ _ = Ok _ |- _ => inv_step H
    | H : get_anim _ _ = Ok _ |- _ => inv_step H
    | H : get_animobj _ _ = Ok _ |- _ => inv_step H
    | H : get_repeat _ _ = Ok _ |- _ => inv_step H
    | H : get_widget _ _ = Ok _ |- _ => inv_step H
    | H : gets _ _ = Ok _ |- _ => inv_step H
    | H : modify _ _ = Ok _ |- _ => inv_step H
    | H : emit _ _ = Ok _ |- _ => inv_step H
    | H : widget_dispatch_event _ _ _ _ = Ok _ |- _ => inv_step H
    | H : update_anim _ _ _ = Ok _ |- _ => inv_step H
    | H : update_animobj _ _ _ = Ok _ |- _ => inv_step H
    | H : update_repeat _ _ _ = Ok _ |- _ => inv_step H
    | H : (if ?b then _ else _) _ = Ok _ |- _ => destruct b eqn:?
    | H : (match ?x with _ => _ end) _ = Ok _ |- _ => destruct x eqn:?
    end.

(* ------------------------------------------------------------------ *)
(** * A frame principle for the engine *)
(* ------------------------------------------------------------------ *)

(** Any relation between stores that is a preorder and that every
    elementary change made by the engine satisfies holds between the store
    before and after any method of the engine. The first two statements of
    [Repeat.repeat] and its final [stop] are taken as units, so that the
    relation may speak of the repetition count. *)
Section Frame.

Variable R : World -> World -> Prop.
Hypothesis R_refl : forall W, R W W.
Hypothesis R_trans : forall W1 W2 W3, R W1 W2 -> R W2 W3 -> R W1 W3.
Hypothesis R_widgets : forall W x, R W (with_widgets x W).
Hypothesis R_animobjs : forall W x, R W (with_animobjs x W).
Hypothesis R_anims : forall W x, R W (with_anims x W).
Hypothesis R_schedule : forall W i,
  R W (with_clock (clock W ++ [(next_handle W, i)]) (S (next_handle W)) W).
Hypothesis R_unschedule : forall W h,
  R W (with_clock (filter (fun e => negb (Nat.eqb (fst e) h)) (clock W))
         (next_handle W) W).
Hypothesis R_event : forall W d name arg,
  (forall r, d <> ORepeat r) ->
  R W (with_log (log W ++ [Dispatch d name arg None]) W).
Hypothesis R_repeat_start : forall W r rp w,
  nth_error (repeats W) r = Some rp -> _repeat_counter rp = 0%nat ->
  R W (with_log (log W ++ [Dispatch (ORepeat r) "on_start" (OWidget w) None]) W).
Hypothesis R_repeat_continue : forall W r rp w,
  nth_error (repeats W) r = Some rp -> repeat_continues rp = true ->
  R W (repeat_entered r w rp W).
Hypothesis R_repeat_finish : forall W r rp w W',
  nth_error (repeats W) r = Some rp -> repeat_continues rp = false ->
  Repeat_stop r w (repeat_entered r w rp W) = Ok (tt, W') ->
  R W W'.

Lemma respects_ret {A} (a : A) : respects R (ret a).
Proof. intros W b W' H. apply ret_Ok in H as [_ ->]. apply R_refl. Qed.

Lemma respects_bind {A B} (m : M A) (k : A -> M B) :
  respects R m -> (forall a, respects R (k a)) -> respects R (bind m k).
Proof.
  intros Hm Hk W b W' H. apply bind_Ok in H as (a & W1 & H1 & H2).
  eapply R_trans; [eapply Hm | eapply Hk]; eauto.
Qed.

Lemma respects_raise {A} e : respects R (@raise A e).
Proof. intros W a W' H. discriminate. Qed.

Lemma respects_lift {A} (r : result A) : respects R (lift r).
Proof. intros W a W' H. apply lift_Ok in H as [_ ->]. apply R_refl. Qed.

Lemma respects_deref {A} (heap : World -> list A) i : respects R (deref heap i).
Proof. intros W a W' H. apply deref_Ok in H as [_ ->]. apply R_refl. Qed.

Lemma respects_gets {A} (f : World -> A) : respects R (gets f).
Proof. intros W a W' H. apply gets_Ok in H as [_ ->]. apply R_refl. Qed.

Lemma respects_update_anim s f : respects R (update_anim s f).
Proof. intros W a W' H. inv_step H. apply R_anims. Qed.

Lemma respects_update_animobj s f : respects R (update_animobj s f).
Proof. intros W a W' H. inv_step H. apply R_animobjs. Qed.

Lemma respects_schedule i : respects R (schedule_interval i).
Proof. intros W a W' H. apply modify_Ok in H; subst. apply R_schedule. Qed.

Lemma respects_unschedule h : respects R (unschedule h).
Proof. intros W a W' H. apply modify_Ok in H; subst. apply R_unschedule. Qed.

Lemma respects_widget_event w name sender :
  (forall r, OWidget w <> ORepeat r) ->
  respects R (widget_dispatch_event w name sender).
Proof. intros Hd W a W' H. inv_step H. now apply R_event. Qed.

Lemma respects_forM_ {A} (l : list A) (body : A -> M unit) :
  (forall x, respects R (body x)) -> respects R (forM_ l body).
Proof.
  intros Hb. induction l as [|x l IH]; simpl.
  - apply respects_ret.
  - apply respects_bind; auto.
Qed.

Lemma respects_if {A} (b : bool) (m1 m2 : M A) :
  respects R m1 -> respects R m2 -> respects R (if b then m1 else m2).
Proof. destruct b; auto. Qed.

Lemma respects_event d name arg :
  (forall r, d <> ORepeat r) -> respects R (emit (Dispatch d name arg None)).
Proof. intros Hd W a W' H. inv_step H. now apply R_event. Qed.

Ltac resp :=
  repeat first
    [ assumption
    | match goal with
      | H : forall _, _ |- _ => simple apply H
      end
    | simple apply respects_ret | simple apply respects_raise
    | simple apply respects_lift
    | simple apply respects_gets | simple apply respects_deref
    | simple apply respects_update_anim | simple apply respects_update_animobj
    | simple apply respects_schedule | simple apply respects_unschedule
    | simple apply respects_event; discriminate
    | simple apply respects_widget_event; discriminate
    | simple apply respects_bind; [|intro]
    | simple apply respects_forM_; intro
    | match goal with
      | |- respects R (match ?x with _ => _ end) => destruct x
      | |- respects R (let '(_, _) := ?x in _) => destruct x
      end ].

Lemma respects_AnimationBase_start i : respects R (AnimationBase_start i).
Proof. unfold AnimationBase_start, get_animobj. resp. Qed.

Lemma respects_AnimationBase_reset i : respects R (AnimationBase_reset i).
Proof. unfold AnimationBase_reset, get_animobj, get_widget. resp. Qed.

Lemma respects_child_of s w : respects R (child_of s w).
Proof. unfold child_of, get_anim. resp. Qed.

Lemma respects_reset fuel : forall s w, respects R (reset fuel s w).
Proof.
  induction fuel as [|fuel IH]; intros s w; simpl.
  - apply respects_raise.
  - unfold get_anim. pose proof respects_child_of.
    pose proof respects_AnimationBase_reset. resp.
Qed.

Lemma respects__del_child s w : respects R (_del_child s w).
Proof. unfold _del_child, get_anim. resp. Qed.

Lemma respects_AnimationBase__repopulate_attrib i w :
  respects R (AnimationBase__repopulate_attrib i w).
Proof.
  unfold AnimationBase__repopulate_attrib, get_animobj, get_widget. resp.
Qed.

Lemma respects_Animation__repopulate_attrib s w :
  respects R (Animation__repopulate_attrib s w).
Proof.
  unfold Animation__repopulate_attrib.
  pose proof respects_child_of.
  pose proof respects_AnimationBase__repopulate_attrib. resp.
Qed.

Lemma repeat_entered_steps r w W a W' (k : Repeat -> M a) :
  (update_repeat r (fun rp => set_repeat_counter (S (_repeat_counter rp)) rp) ;;;
   rp <- get_repeat r ;;
   emit (Dispatch (ORepeat r) "on_repeat" (OWidget w)
           (Some (_repeat_counter rp))) ;;;
   rp <- get_repeat r ;;
   k rp) W = Ok W' ->
  exists rp0,
    nth_error (repeats W) r = Some rp0 /\
    k (set_repeat_counter (S (_repeat_counter rp0)) rp0)
      (repeat_entered r w rp0 W) = Ok W'.
Proof.
  intros H. destruct W' as [x W'].
  apply bind_Ok in H as (u & W1 & H1 & H).
  apply update_repeat_Ok in H1 as (rp0 & E & ->).
  exists rp0. split; [exact E|].
  apply bind_Ok in H as (rp1 & W2 & H2 & H).
  apply deref_Ok in H2 as [H2 ->].
  unfold with_repeats in H2; cbn [repeats] in H2.
  erewrite nth_error_list_set_same in H2 by exact E. inversion H2; subst rp1.
  apply bind_Ok in H as (u2 & W3 & H3 & H).
  apply emit_Ok in H3. subst W3.
  apply bind_Ok in H as (rp2 & W4 & H4 & H).
  apply deref_Ok in H4 as [H4 ->].
  unfold with_repeats, with_log in H4; cbn [repeats] in H4.
  erewrite nth_error_list_set_same in H4 by exact E. inversion H4; subst rp2.
  exact H.
Qed.

Lemma block_respects_all : forall fuel, block_respects R fuel.
Proof.
  induction fuel as [|fuel IH].
  - repeat split; intros; simpl; apply respects_raise.
  - destruct IH as (Hd & Hrr & Hrs & Hs & Has & Hss & Hps).
    pose proof respects_child_of as Hco.
    pose proof respects_AnimationBase_start as Hst.
    pose proof (respects_reset fuel) as Hre.
    repeat split; intros; simpl.
    + (* Animation_dispatch_event *)
      unfold get_anim. resp.
    + (* Repeat_repeat *)
      intros W u W' H.
      apply repeat_entered_steps in H as (rp0 & E & H).
      cbn [_times _repeat_counter set_repeat_counter rep_animations] in H.
      destruct (repeat_continues rp0) eqn:C.
      * eapply R_trans; [eapply R_repeat_continue; eassumption|].
        unfold repeat_continues in C.
        destruct (_times rp0 =? -1)%Z.
        -- eapply (@respects_bind unit unit); [apply Hre | intro; apply Hrs | exact H].
        -- cbn [orb] in C. rewrite C in H.
           eapply (@respects_bind unit unit); [apply Hre | intro; apply Hrs | exact H].
      * unfold repeat_continues in C. apply orb_false_iff in C as [C1 C2].
        rewrite C1, C2 in H. destruct u.
        eapply R_repeat_finish; eauto.
        unfold repeat_continues. now rewrite C1, C2.
    + (* Repeat_start *)
      intros W u W' H.
      apply bind_Ok in H as (rp & W1 & H1 & H).
      apply deref_Ok in H1 as [H1 ->].
      apply bind_Ok in H as (u1 & W2 & H2 & H).
      assert (R W W2) as HR.
      { destruct (Nat.eqb (_repeat_counter rp) 0) eqn:C.
        - apply emit_Ok in H2; subst W2. apply Nat.eqb_eq in C.
          eapply R_repeat_start; eauto.
        - apply ret_Ok in H2 as [_ ->]. apply R_refl. }
      eapply R_trans; [exact HR|].
      eapply (@respects_bind Repeat unit);
        [apply respects_deref | intro; apply Hs | exact H].
    + unfold get_anim. resp.
    + resp.
    + unfold get_anim. resp.
    + unfold get_anim. resp.
Qed.

Lemma respects_Animation_dispatch_event fuel s name w :
  respects R (Animation_dispatch_event fuel s name w).
Proof. apply block_respects_all. Qed.

Lemma respects_SequenceAnimation_start fuel s w :
  respects R (SequenceAnimation_start fuel s w).
Proof. apply block_respects_all. Qed.

Lemma respects_start fuel s w : respects R (start fuel s w).
Proof. apply block_respects_all. Qed.

Lemma respects_Repeat_repeat fuel r w : respects R (Repeat_repeat fuel r w).
Proof. apply block_respects_all. Qed.

Lemma respects_Repeat_start fuel r w : respects R (Repeat_start fuel r w).
Proof. apply block_respects_all. Qed.

Lemma respects_Animation_stop fuel s w : respects R (Animation_stop fuel s w).
Proof.
  unfold Animation_stop, get_animobj.
  pose proof respects_child_of. pose proof respects__del_child.
  pose proof respects_Animation_dispatch_event. resp.
Qed.

Lemma respects_SequenceAnimation_stop fuel s w :
  respects R (SequenceAnimation_stop fuel s w).
Proof.
  unfold SequenceAnimation_stop, get_animobj, get_anim.
  pose proof respects_child_of.
  pose proof respects_Animation__repopulate_attrib.
  pose proof respects_SequenceAnimation_start. resp.
Qed.

Lemma respects_ParallelAnimation_stop fuel s w o :
  respects R (ParallelAnimation_stop fuel s w o).
Proof.
  unfold ParallelAnimation_stop, get_animobj, get_anim.
  pose proof respects_Animation_dispatch_event. resp.
Qed.

Lemma respects_AnimationBase_stop fuel i : respects R (AnimationBase_stop fuel i).
Proof.
  unfold AnimationBase_stop, get_animobj, get_anim.
  pose proof respects_Animation_stop.
  pose proof respects_SequenceAnimation_stop.
  pose proof respects_ParallelAnimation_stop. resp.
Qed.






Lemma respects_new_animobj a : respects R (new_animobj a).
Proof.
  intros W i W' H. unfold new_animobj in H. inversion H; subst.
  apply R_animobjs.
Qed.

Lemma respects_make_animobj ty w k an : respects R (make_animobj ty w k an).
Proof.
  unfold make_animobj, get_widget. pose proof respects_new_animobj. resp.
Qed.

Lemma respects_Animation_set_widget s w : respects R (Animation_set_widget s w).
Proof.
  unfold Animation_set_widget, get_anim.
  pose proof respects_make_animobj. resp.
Qed.

Lemma respects_ComplexAnimation_set_widget s w :
  respects R (ComplexAnimation_set_widget s w).
Proof.
  unfold ComplexAnimation_set_widget, get_anim.
  pose proof respects_make_animobj. resp.
Qed.

Lemma respects_set_widget s w : respects R (set_widget s w).
Proof.
  unfold set_widget, get_anim.
  pose proof respects_Animation_set_widget.
  pose proof respects_ComplexAnimation_set_widget. resp.
Qed.


Lemma respects_animate fuel s l : respects R (animate fuel s l).
Proof.
  unfold animate.
  pose proof respects_set_widget. pose proof respects_start. resp.
Qed.

End Frame.

(* ------------------------------------------------------------------ *)
(** * [stop()] and the tick service *)
(* ------------------------------------------------------------------ *)











(* ------------------------------------------------------------------ *)
(** * The instance of a leaf spec after its run *)
(* ------------------------------------------------------------------ *)

Lemma children_get_del_same c w : children_get (children_del c w) w = None.
Proof.
  unfold children_del. induction c as [|[w' i] c IH]; simpl; [reflexivity|].
  destruct (Nat.eqb w' w) eqn:E; simpl; [exact IH|]. now rewrite E.
Qed.

Lemma children_get_set_same c w i : children_get (children_set c w i) w = Some i.
Proof.
  induction c as [|[w' j] c IH]; simpl.
  - now rewrite Nat.eqb_refl.
  - destruct (Nat.eqb w' w) eqn:E; simpl.
    + now rewrite Nat.eqb_refl.
    + now rewrite E.
Qed.

(** The store after [Animation.stop] for an instance that generates events
    and a spec nobody listens to: two events, nothing else. *)
Lemma Animation_stop_with_event fuel s w W sp i a u W' :
  nth_error (anims W) s = Some sp ->
  on_complete_handlers sp = [] ->
  children_get (children sp) w = Some i ->
  nth_error (animobjs W) i = Some a ->
  truthy (generate_event a) = true ->
  Animation_stop fuel s w W = Ok (u, W') ->
  anims W' = anims W /\ animobjs W' = animobjs W.
Proof.
  intros Hs Hh Hc Ha Hg H.
  unfold Animation_stop, child_of in H.
  unfold bind at 1 2 in H. unfold get_anim, deref in H. rewrite Hs, Hc in H.
  unfold ret in H. unfold bind at 1 in H.
  unfold get_animobj, deref in H. rewrite Ha, Hg in H.
  apply bind_Ok in H as (u1 & W1 & H1 & H).
  apply emit_Ok in H1; subst W1.
  destruct fuel as [|fuel]; cbn [Animation_dispatch_event] in H.
  - discriminate H.
  - apply bind_Ok in H as (u2 & W2 & H2 & H).
    apply emit_Ok in H2; subst W2.
    change (String.eqb "on_complete" "on_complete") with true in H.
    cbv iota in H.
    unfold bind, get_anim, deref, with_log in H; cbn [anims] in H.
    rewrite Hs, Hh in H. cbn [forM_] in H.
    apply ret_Ok in H as [_ ->]. split; reflexivity.
Qed.

(** C8, as the code has it. When the run of a leaf instance finishes (its
    [stop()]), on a spec no controller listens to, the spec discards the
    instance only if the instance was created with a false [generate_event].
    With [generate_event] set, which is the default, the spec keeps the
    instance: a later attach of the same spec to the same target is rejected
    ([set_widget] returns [False]) and no fresh instance is created. Without
    it the spec holds no instance for the target any more, and a later
    attach that succeeds installs a newly allocated instance. *)
Theorem finished_leaf_instance :
  forall (fuel i : nat) (W W' : World) (a : AnimationBase) (sp : Animation)
         (v : value),
  nth_error (animobjs W) i = Some a ->
  running a = true ->
  nth_error (anims W) (animator a) = Some sp ->
  cls sp = CAnimation ->
  on_complete_handlers sp = [] ->
  children_get (children sp) (widget a) = Some i ->
  AnimationBase_stop fuel i W = Ok (v, W') ->
  if truthy (generate_event a)
  then Animation_set_widget (animator a) (widget a) W' = Ok (false, W')
  else child_of (animator a) (widget a) W' = Raise KeyError /\
       forall b W'',
         Animation_set_widget (animator a) (widget a) W' = Ok (b, W'') ->
         b = true /\
         child_of (animator a) (widget a) W'' = Ok (List.length (animobjs W'), W'').
Proof.
  intros fuel i W W' a sp v Ha Hr Hs Hc Hh Hch H.
  unfold AnimationBase_stop in H.
  unfold bind at 1 in H. unfold get_animobj at 1, deref in H.
  rewrite Ha, Hr in H.
  apply bind_Ok in H as (u1 & W1 & H1 & H).
  apply update_animobj_Ok in H1 as (a0 & E & ->).
  rewrite Ha in E; inversion E; subst a0; clear E.
  set (W1 := with_animobjs _ W) in H.
  assert (Ha1 : nth_error (animobjs W1) i = Some (set_running false a)).
  { subst W1. unfold with_animobjs; cbn [animobjs].
    eapply nth_error_list_set_same; eauto. }
  assert (Hs1 : nth_error (anims W1) (animator a) = Some sp) by exact Hs.
  unfold bind at 1 in H. unfold get_animobj, deref in H. rewrite Ha1 in H.
  cbn [animator widget set_running] in H.
  unfold bind at 1 in H. unfold get_anim, deref in H. rewrite Hs1, Hc in H.
  apply bind_Ok in H as (u2 & W2 & H2 & H). apply ret_Ok in H as [_ ->].
  destruct (truthy (generate_event a)) eqn:Hg.
  - eapply Animation_stop_with_event in H2 as [HA _]; eauto.
    unfold Animation_set_widget, bind, get_anim, deref.
    rewrite HA, Hs1, Hch. reflexivity.
  - unfold Animation_stop, child_of in H2.
    unfold bind at 1 2 in H2. unfold get_anim, deref in H2.
    rewrite Hs1, Hch in H2. unfold ret in H2. unfold bind at 1 in H2.
    unfold get_animobj, deref in H2. rewrite Ha1 in H2.
    cbn [generate_event set_running] in H2. rewrite Hg in H2.
    unfold _del_child in H2. unfold bind at 1 in H2.
    unfold get_anim, deref in H2. rewrite Hs1, Hch in H2.
    apply update_anim_Ok in H2 as (sp0 & E & ->).
    rewrite Hs1 in E; inversion E; subst sp0; clear E.
    assert (Hs2 : nth_error
              (anims (with_anims (list_set (anims W1) (animator a)
                        (set_children (children_del (children sp) (widget a)) sp)) W1))
              (animator a)
            = Some (set_children (children_del (children sp) (widget a)) sp)).
    { unfold with_anims; cbn [anims]. eapply nth_error_list_set_same; eauto. }
    split.
    + unfold child_of, bind, get_anim, deref. rewrite Hs2.
      cbn [children set_children]. now rewrite children_get_del_same.
    + intros b W'' Hset.
      unfold Animation_set_widget in Hset.
      unfold bind at 1 in Hset. unfold get_anim at 1, deref in Hset.
      rewrite Hs2 in Hset. cbn [children set_children] in Hset.
      rewrite children_get_del_same in Hset.
      apply bind_Ok in Hset as (j & W3 & Hmk & Hset).
      apply bind_Ok in Hset as (u3 & W4 & Hup & Hset).
      apply ret_Ok in Hset as [-> ->]. split; [reflexivity|].
      apply update_anim_Ok in Hup as (sp3 & E3 & ->).
      unfold make_animobj in Hmk.
      apply bind_Ok in Hmk as (attrs & W5 & Hw & Hmk).
      apply deref_Ok in Hw as [Hw ->].
      apply bind_Ok in Hmk as (anew & W6 & Hl & Hmk).
      apply lift_Ok in Hl as [Hl ->].
      unfold new_animobj in Hmk. inversion Hmk; subst j W3; clear Hmk.
      unfold child_of, bind, get_anim, deref.
      unfold with_anims at 1; cbn [anims].
      erewrite nth_error_list_set_same by exact E3.
      cbn [children set_children]. rewrite children_get_set_same.
      reflexivity.
Qed.

Lemma finished_leaf_instance_witness :
  Animation_set_widget 0 0 (world_of (AnimationBase_stop 8 0 leaf_ending_world))
    = Ok (false, world_of (AnimationBase_stop 8 0 leaf_ending_world)).
Proof.
  apply (@finished_leaf_instance 8 0 leaf_ending_world
           (world_of (AnimationBase_stop 8 0 leaf_ending_world))
           (animobj_at leaf_ending_world 0) (anim_at leaf_ending_world 0)
           (VBool false));
    vm_compute; reflexivity.
Defined.

(** C8, counterexample: a leaf spec with the default [generate_event], run
    to completion on a target, still holds its instance for the target, and
    a later attach of the spec to the same target is rejected. *)
Lemma finished_instance_is_kept :
  clock leaf_finished_world = [] /\
  widget_attr leaf_finished_world 0 "x" = Some (VInt 100) /\
  child_of 0 0 leaf_finished_world = Ok (0%nat, leaf_finished_world) /\
  set_widget 0 0 leaf_finished_world = Ok (false, leaf_finished_world).
Proof. vm_compute. repeat split. Qed.

(** The other branch: with [generate_event=False] the spec holds no instance
    for the target once the run has completed. *)
Lemma silent_instance_is_discarded :
  clock silent_leaf_finished_world = [] /\
  widget_attr silent_leaf_finished_world 0 "x" = Some (VInt 100) /\
  child_of 0 0 silent_leaf_finished_world = Raise KeyError.
Proof. vm_compute. repeat split. Qed.

(* ------------------------------------------------------------------ *)
(** * The execution state of a composite *)
(* ------------------------------------------------------------------ *)

Lemma child_of_Ok s w W i W' :
  child_of s w W = Ok (i, W') ->
  W' = W /\ exists sp, nth_error (anims W) s = Some sp /\
                       children_get (children sp) w = Some i.
Proof.
  unfold child_of. intros H. inv_all. split; [reflexivity|]. eauto.
Qed.

Lemma AnimationBase_start_anims i W u W' :
  AnimationBase_start i W = Ok (u, W') -> anims W' = anims W.
Proof.
  unfold AnimationBase_start. intros H. inv_all; try reflexivity.
  unfold schedule_interval in *. inv_all. reflexivity.
Qed.

(** Starting a leaf animation changes no [Animation] object. *)
Lemma Animation_start_anims fuel s w W u W' :
  Animation_start fuel s w W = Ok (u, W') -> anims W' = anims W.
Proof.
  destruct fuel as [|fuel]; cbn [Animation_start]; intros H; [discriminate|].
  apply bind_Ok in H as (i & W1 & H1 & H).
  apply child_of_Ok in H1 as [-> _].
  apply bind_Ok in H as (u1 & W2 & H2 & H).
  apply AnimationBase_start_anims in H2.
  destruct fuel as [|fuel]; cbn [Animation_dispatch_event] in H; [discriminate|].
  change (String.eqb "on_start" "on_complete") with false in H. cbv iota in H.
  inv_all. exact H2.
Qed.

Lemma AnimationBase__repopulate_attrib_anims i w W u W' :
  AnimationBase__repopulate_attrib i w W = Ok (u, W') -> anims W' = anims W.
Proof.
  unfold AnimationBase__repopulate_attrib. intros H. inv_all. reflexivity.
Qed.

(** The step of [SequenceAnimation.start] in the middle of a sequence: the
    child at the current index is started, whatever the target. *)
Lemma SequenceAnimation_start_midway fuel s w W sp c :
  nth_error (anims W) s = Some sp ->
  anim_counter sp <> 0%nat ->
  nth_error (animations sp) (anim_counter sp) = Some c ->
  SequenceAnimation_start (S fuel) s w W = start fuel c w W.
Proof.
  intros Hs Hc Hn. cbn [SequenceAnimation_start].
  unfold bind at 1. unfold get_anim at 1, deref. rewrite Hs.
  destruct (Nat.eqb (anim_counter sp) 0) eqn:E;
    [apply Nat.eqb_eq in E; contradiction|].
  unfold bind at 1. unfold ret at 1.
  unfold bind at 1. unfold get_anim at 1, deref. rewrite Hs.
  assert (Hlt : (anim_counter sp < List.length (animations sp))%nat).
  { apply nth_error_Some. rewrite Hn. discriminate. }
  destruct (Nat.leb (List.length (animations sp)) (anim_counter sp)) eqn:L;
    [apply Nat.leb_le in L; lia|].
  rewrite Hn. reflexivity.
Qed.

(** A child completion on target [w1], in the middle of a sequence whose
    next child is a leaf, advances the counter of the sequence object; the
    child started afterwards for any target [w2] is the one at the advanced
    index, and [on_start] is not dispatched for [w2]. *)
Lemma sequence_index_is_shared fuel s w1 W W1 sp c csp u :
  nth_error (anims W) s = Some sp ->
  cls sp = CSequenceAnimation ->
  nth_error (animations sp) (S (anim_counter sp)) = Some c ->
  nth_error (anims W) c = Some csp ->
  cls csp = CAnimation ->
  SequenceAnimation_stop fuel s w1 W = Ok (u, W1) ->
  nth_error (anims W1) s = Some (set_anim_counter (S (anim_counter sp)) sp) /\
  forall w2 fuel2,
    SequenceAnimation_start (S fuel2) s w2 W1 = start fuel2 c w2 W1.
Proof.
  intros Hs Hcs Hn Hc Hcc H.
  assert (Hne : c <> s) by (intros ->; congruence).
  assert (Hlt : (S (anim_counter sp) < List.length (animations sp))%nat).
  { apply nth_error_Some. rewrite Hn. discriminate. }
  unfold SequenceAnimation_stop in H.
  apply bind_Ok in H as (sp0 & W0 & H0 & H). apply deref_Ok in H0 as [H0 ->].
  rewrite Hs in H0; inversion H0; subst sp0; clear H0.
  apply bind_Ok in H as (cur & W0 & H0 & H).
  apply bind_Ok in H as (i & W2 & H2 & H).
  apply bind_Ok in H as (a & W3 & H3 & H).
  apply bind_Ok in H as (u4 & W4 & H4 & H).
  assert (HA : anims W4 = anims W).
  { destruct (nth_error (animations sp) (anim_counter sp));
      [apply ret_Ok in H0 as [_ ->] | discriminate].
    apply child_of_Ok in H2 as [-> _].
    apply deref_Ok in H3 as [_ ->].
    destruct (truthy (generate_event a) && negb (truthy (single_event sp)));
      [apply emit_Ok in H4 | apply ret_Ok in H4 as [_ H4]]; subst W4;
      reflexivity. }
  apply bind_Ok in H as (u5 & W5 & H5 & H).
  apply update_anim_Ok in H5 as (sp5 & E5 & ->).
  rewrite HA, Hs in E5; inversion E5; subst sp5; clear E5.
  set (sp1 := set_anim_counter (S (anim_counter sp)) sp) in *.
  set (W5 := with_anims _ W4) in H.
  assert (Hs5 : nth_error (anims W5) s = Some sp1).
  { subst W5. unfold with_anims; cbn [anims]. rewrite HA.
    eapply nth_error_list_set_same; eauto. }
  assert (Hc5 : nth_error (anims W5) c = Some csp).
  { subst W5. unfold with_anims; cbn [anims]. rewrite HA.
    rewrite nth_error_list_set_other by congruence. exact Hc. }
  apply bind_Ok in H as (sp6 & W6 & H6 & H). apply deref_Ok in H6 as [H6 ->].
  rewrite Hs5 in H6; inversion H6; subst sp6; clear H6.
  apply bind_Ok in H as (u7 & W7 & H7 & H).
  cbn [sp1 anim_counter animations set_anim_counter] in H7.
  apply Nat.ltb_lt in Hlt. rewrite Hlt, Hn in H7.
  assert (HA7 : anims W7 = anims W5).
  { unfold Animation__repopulate_attrib in H7.
    apply bind_Ok in H7 as (j & W8 & H8 & H7).
    apply child_of_Ok in H8 as [-> _].
    eapply AnimationBase__repopulate_attrib_anims; eauto. }
  assert (Hs7 : nth_error (anims W7) s = Some sp1) by (rewrite HA7; exact Hs5).
  assert (Hc7 : nth_error (anims W7) c = Some csp) by (rewrite HA7; exact Hc5).
  assert (Hstep : forall w2 fuel2,
            SequenceAnimation_start (S fuel2) s w2 W7 = start fuel2 c w2 W7).
  { intros w2 fuel2. eapply SequenceAnimation_start_midway; eauto.
    cbn; discriminate. }
  destruct fuel as [|fuel]; [discriminate H|].
  rewrite Hstep in H.
  destruct fuel as [|fuel]; [discriminate H|].
  cbn [start] in H.
  unfold bind at 1 in H. unfold get_anim, deref in H. rewrite Hc7, Hcc in H.
  apply Animation_start_anims in H.
  assert (Hs1 : nth_error (anims W1) s = Some sp1) by (rewrite H; exact Hs7).
  split; [exact Hs1|].
  intros w2 fuel2. eapply SequenceAnimation_start_midway; eauto.
  cbn; discriminate.
Qed.

(** A child completion on target [w1] that is not the last one to come
    increments the counter of the parallel object, for every target. *)
Lemma parallel_count_is_shared fuel s w1 o W W1 sp u :
  nth_error (anims W) s = Some sp ->
  S (dispatch_counter sp) <> List.length (animations sp) ->
  ParallelAnimation_stop fuel s w1 o W = Ok (u, W1) ->
  nth_error (anims W1) s = Some (set_dispatch_counter (S (dispatch_counter sp)) sp).
Proof.
  intros Hs Hne H. unfold ParallelAnimation_stop in H.
  apply bind_Ok in H as (u1 & W2 & H2 & H).
  apply update_anim_Ok in H2 as (sp2 & E2 & ->).
  rewrite Hs in E2; inversion E2; subst sp2; clear E2.
  set (sp1 := set_dispatch_counter (S (dispatch_counter sp)) sp) in *.
  set (W2 := with_anims _ W) in H.
  assert (Hs2 : nth_error (anims W2) s = Some sp1).
  { subst W2. unfold with_anims; cbn [anims].
    eapply nth_error_list_set_same; eauto. }
  apply bind_Ok in H as (sp3 & W3 & H3 & H). apply deref_Ok in H3 as [H3 ->].
  rewrite Hs2 in H3; inversion H3; subst sp3; clear H3.
  cbn [sp1 dispatch_counter animations set_dispatch_counter] in H.
  apply Nat.eqb_neq in Hne. rewrite Hne in H.
  destruct o as [i|]; [|discriminate H].
  inv_all; exact Hs2.
Qed.

(** C1, as the code has it. The execution state of a composite is one
    counter on the composite object ([anim_counter] of a sequence,
    [dispatch_counter] of a parallel), shared by all the targets the
    composite drives. A child completion on a target [w1] advances it, and
    what the composite then does for any other target [w2] follows the
    advanced counter: a sequence starts, for [w2], the child after the one
    that completed on [w1]. *)
Theorem composite_state_is_shared_by_targets :
  (forall fuel s w1 W W1 sp c csp u,
     nth_error (anims W) s = Some sp ->
     cls sp = CSequenceAnimation ->
     nth_error (animations sp) (S (anim_counter sp)) = Some c ->
     nth_error (anims W) c = Some csp ->
     cls csp = CAnimation ->
     SequenceAnimation_stop fuel s w1 W = Ok (u, W1) ->
     nth_error (anims W1) s = Some (set_anim_counter (S (anim_counter sp)) sp) /\
     forall w2 fuel2,
       SequenceAnimation_start (S fuel2) s w2 W1 = start fuel2 c w2 W1) /\
  (forall fuel s w1 o W W1 sp u,
     nth_error (anims W) s = Some sp ->
     S (dispatch_counter sp) <> List.length (animations sp) ->
     ParallelAnimation_stop fuel s w1 o W = Ok (u, W1) ->
     nth_error (anims W1) s
       = Some (set_dispatch_counter (S (dispatch_counter sp)) sp)).
Proof.
  split.
  - intros. eapply sequence_index_is_shared; eauto.
  - intros. eapply parallel_count_is_shared; eauto.
Qed.

(** The first part at work: in the shared scene, the completion of the
    first child on widget 0 makes the sequence start its second child for
    widget 1. *)
Lemma composite_state_is_shared_by_targets_witness :
  nth_error (anims (world_of (SequenceAnimation_stop 8 2 0 shared_sequence_midway))) 2
    = Some (set_anim_counter 1 (anim_at shared_sequence_midway 2)) /\
  forall w2 fuel2,
    SequenceAnimation_start (S fuel2) 2 w2
      (world_of (SequenceAnimation_stop 8 2 0 shared_sequence_midway))
    = start fuel2 1 w2
        (world_of (SequenceAnimation_stop 8 2 0 shared_sequence_midway)).
Proof.
  apply (proj1 composite_state_is_shared_by_targets 8%nat 2%nat 0%nat
           shared_sequence_midway
           (world_of (SequenceAnimation_stop 8 2 0 shared_sequence_midway))
           (anim_at shared_sequence_midway 2) 1%nat
           (anim_at shared_sequence_midway 1) tt);
    vm_compute; reflexivity.
Defined.

(** C1, counterexample: one sequence ([x] to 100, then [x] to 200) drives
    widgets 0 and 1 together. The completion of the first child on widget 0
    advances the shared index, so that the completion of the first child on
    widget 1 ends the sequence for widget 1: its [x] stays at 100. Driven
    alone, by the same ticks, widget 1 reaches 200. *)
Lemma shared_index_breaks_second_target :
  clock shared_sequence_world = [] /\
  widget_attr shared_sequence_world 1 "x" = Some (VInt 100) /\
  clock solo_sequence_world = [] /\
  widget_attr solo_sequence_world 1 "x" = Some (VInt 200).
Proof. vm_compute. repeat split. Qed.

(* ------------------------------------------------------------------ *)
(** * The [Repeat] controller *)
(* ------------------------------------------------------------------ *)





Section RepeatInvariant.

Variables r n : nat.

Let R (W W' : World) : Prop := repeat_invariant r n W -> repeat_invariant r n W'.






End RepeatInvariant.





(** In that scene nothing follows the completion, and the target has moved
    by three deltas. *)
Lemma repeat_scene_signals :
  repeat_signals 0 (log (world_of (repeat_scene 9 repeat_ticks empty_world)))
    = [OnRepeat 1; OnRepeat 2; OnRepeat 3; OnComplete] /\
  widget_attr (world_of (repeat_scene 9 repeat_ticks empty_world)) 0 "x"
    = Some (VInt 30) /\
  clock (world_of (repeat_scene 9 repeat_ticks empty_world)) = [].
Proof. vm_compute. repeat split. Qed.

(* ------------------------------------------------------------------ *)
(** * Numbers *)
(* ------------------------------------------------------------------ *)







(* ------------------------------------------------------------------ *)
(** * Symbolic runs *)
(* ------------------------------------------------------------------ *)



Lemma absolute_binding_number S target :
  is_number S = true -> absolute_binding S target = Ok (S, target).
Proof. destruct S; try discriminate; reflexivity. Qed.





Section DeltaRun.

Variables (d : Q) (delta vstart vend : value) (h : nat) (lg : list event).
Hypothesis d_positive : 0 < d.
Hypothesis vstart_number : is_number vstart = true.
Hypothesis vend_number : is_number vend = true.







End DeltaRun.







(** The run of the witness does complete, with [x] at 15 and then at 25. *)
Lemma delta_run_example :
  let W1 := world_of ((delta_scene 3 1 (VInt 5) (VInt 10) ;;;
                       run_ticks 3 [1 # 2; 1; 1]) empty_world) in
  let W2 := world_of ((delta_again 3 ;;; run_ticks 3 [1; 1; 1]) W1) in
  clock W1 = [] /\ widget_attr W1 0 "x" = Some (VInt 15) /\
  clock W2 = [] /\ widget_attr W2 0 "x" = Some (VInt 25).
Proof. vm_compute. repeat split. Qed.


(* ------------------------------------------------------------------ *)
(** * The sequence of two absolute animations *)
(* ------------------------------------------------------------------ *)


Section TwoStepRun.

Variables (d1 d2 : Q) (x0 : value).
Hypothesis d1_positive : 0 < d1.
Hypothesis d2_positive : 0 < d2.
Hypothesis x0_number : is_number x0 = true.









End TwoStepRun.




(** The run of the witness does complete, with [x] at 200. *)
Lemma sequence_run_example :
  let W := world_of ((two_step_scene 5 1 1 (VInt 0) ;;;
                      run_ticks 5 [1 # 2; 1; 1; 1 # 2; 1; 1]) empty_world) in
  clock W = [] /\ widget_attr W 0 "x" = Some (VInt 200).
Proof. vm_compute. repeat split. Qed.

(* ------------------------------------------------------------------ *)
(** * More on interpolation *)
(* ------------------------------------------------------------------ *)

Lemma calculate_list ls vend t :
  _calculate_attribute_value (VList ls) vend t =
    _calculate_attribute_value (VTuple ls) vend t.
Proof. reflexivity. Qed.

(** X1. Interpolating a list or a tuple against a value that is not a list
    or tuple of the same length raises [AssertionError]. *)
Theorem interpolation_shape_mismatch :
  forall (vstart vend : value) (ls : list value) (t : Q),
  is_sequence vstart = Some ls ->
  match is_sequence vend with
  | Some le => List.length ls <> List.length le
  | None => True
  end ->
  _calculate_attribute_value vstart vend t = Raise AssertionError.
Proof.
  intros vstart vend ls t Hs Hm.
  assert (E : _calculate_attribute_value vstart vend t =
              _calculate_attribute_value (VTuple ls) vend t).
  { destruct vstart; try discriminate; inversion Hs; subst; reflexivity. }
  rewrite E, calculate_sequence.
  destruct (is_sequence vend) as [le|]; [|reflexivity].
  apply Nat.eqb_neq in Hm. now rewrite Hm.
Qed.

Lemma interpolation_shape_mismatch_witness :
  _calculate_attribute_value (VList [VInt 0; VInt 0]) (VTuple [VInt 1]) (1 # 2)
    = Raise AssertionError.
Proof.
  apply (@interpolation_shape_mismatch (VList [VInt 0; VInt 0])
           (VTuple [VInt 1]) [VInt 0; VInt 0] (1 # 2)).
  - reflexivity.
  - simpl. discriminate.
Defined.

(** X2. Interpolating a list or a tuple of length [n] yields, when it
    succeeds, a list of length [n] whose elements have the types of the
    elements of the start value. *)
Theorem interpolation_of_sequence :
  forall (vstart vend : value) (ls : list value) (t : Q) (v : value),
  is_sequence vstart = Some ls ->
  _calculate_attribute_value vstart vend t = Ok v ->
  exists vs, v = VList vs /\ List.length vs = List.length ls /\
    Forall2 (fun x c => type_of c = type_of x) ls vs.
Proof.
  intros vstart vend ls t v Hs H.
  assert (E : _calculate_attribute_value vstart vend t =
              _calculate_attribute_value (VTuple ls) vend t).
  { destruct vstart; try discriminate; inversion Hs; subst; reflexivity. }
  rewrite E in H.
  apply calculate_tuple_gives_list in H as (vs & -> & HF).
  exists vs. split; [reflexivity|]. split; [|exact HF].
  symmetry. eapply Forall2_length; eauto.
Qed.

Lemma interpolation_of_sequence_witness :
  exists vs,
    VList [VInt 5; VInt 10; VInt 15] = VList vs /\
    List.length vs = List.length [VInt 0; VInt 0; VInt 0] /\
    Forall2 (fun x c => type_of c = type_of x) [VInt 0; VInt 0; VInt 0] vs.
Proof.
  apply (@interpolation_of_sequence (VList [VInt 0; VInt 0; VInt 0])
           (VList [VInt 10; VInt 20; VInt 30]) [VInt 0; VInt 0; VInt 0]
           (1 # 2) (VList [VInt 5; VInt 10; VInt 15])).
  - reflexivity.
  - vm_compute. reflexivity.
Defined.

Lemma calculate_dict ds vend t :
  _calculate_attribute_value (VDict ds) vend t =
    (n <- py_len vend ;;
     if Nat.eqb (List.length ds) n
     then (d <- interpolate_items ds vend t ;; Ok (VDict d))
     else Raise AssertionError)%res.
Proof.
  simpl. destruct (py_len vend) as [n|e]; [|reflexivity]. cbn [rbind].
  destruct (Nat.eqb (List.length ds) n); [|reflexivity].
  match goal with
  | |- rbind (?F ds) _ = _ =>
      assert (E : forall a, F a = interpolate_items a vend t)
  end.
  { induction a as [|[k x] a IH]; [reflexivity|].
    simpl. rewrite IH. reflexivity. }
  rewrite E. reflexivity.
Qed.

Lemma interpolate_items_keys ds vend t d :
  interpolate_items ds vend t = Ok d ->
  map fst d = map fst ds /\
  Forall2 (fun x c => type_of (snd c) = type_of (snd x)) ds d.
Proof.
  revert d; induction ds as [|[k x] ds IH]; intros d H; simpl in H.
  - inversion H; subst. split; [reflexivity | constructor].
  - apply rbind_Ok in H as (y & _ & H).
    apply rbind_Ok in H as (r & _ & H).
    apply rbind_Ok in H as (c & Hc & H).
    apply rbind_Ok in H as (rest & Hrest & H).
    inversion H; subst. destruct (IH _ Hrest) as [Hk HF].
    split; [simpl; now rewrite Hk|].
    constructor; [|exact HF]. simpl. eapply construct_type; eauto.
Qed.

Lemma interpolate_items_missing ds vend t k :
  In k (map fst ds) -> (forall e, getitem_str vend k <> Ok e) ->
  exists e, interpolate_items ds vend t = Raise e.
Proof.
  induction ds as [|[k' x] ds IH]; intros Hin Hk; [destruct Hin|].
  simpl. destruct (getitem_str vend k') as [y|e] eqn:Hy;
    [|eexists; reflexivity].
  cbn [rbind].
  destruct Hin as [Heq | Hin].
  { simpl in Heq. subst k'. now destruct (Hk y). }
  destruct (_calculate_attribute_value x y t) as [r|e];
    [|eexists; reflexivity].
  cbn [rbind].
  destruct (construct (type_of x) r) as [c|e]; [|eexists; reflexivity].
  cbn [rbind].
  destruct (IH Hin Hk) as [e He]. rewrite He. eexists; reflexivity.
Qed.

(** X3. Interpolating a dictionary yields, when it succeeds, a dictionary
    with the keys of the start value, in the same order, each value having
    the type of the start value under that key. *)
Theorem interpolation_of_dict :
  forall (ds : dict) (vend : value) (t : Q) (v : value),
  _calculate_attribute_value (VDict ds) vend t = Ok v ->
  exists d, v = VDict d /\ dict_keys d = dict_keys ds /\
    Forall2 (fun x c => type_of (snd c) = type_of (snd x)) ds d.
Proof.
  intros ds vend t v H. rewrite calculate_dict in H.
  apply rbind_Ok in H as (n & _ & H).
  destruct (Nat.eqb (List.length ds) n); [|discriminate].
  apply rbind_Ok in H as (d & Hd & H). inversion H; subst.
  exists d. split; [reflexivity|]. now apply interpolate_items_keys in Hd.
Qed.

Lemma interpolation_of_dict_witness :
  exists d,
    VDict [("r"%string, VFloat ((0 * (1 - (1 # 2))) + (1 * (1 # 2))))] = VDict d /\
    dict_keys d = dict_keys [("r"%string, VFloat 0)] /\
    Forall2 (fun x c => type_of (snd c) = type_of (snd x))
      [("r"%string, VFloat 0)] d.
Proof.
  apply (@interpolation_of_dict [("r"%string, VFloat 0)]
           (VDict [("r"%string, VFloat 1)]) (1 # 2)).
  reflexivity.
Defined.

(** X4. Interpolating a dictionary against a dictionary that lacks one of
    its keys fails: no value is produced. *)
Theorem interpolation_of_dict_missing_key :
  forall (ds de : dict) (t : Q) (k : string),
  In k (dict_keys ds) -> dict_get de k = None ->
  exists e, _calculate_attribute_value (VDict ds) (VDict de) t = Raise e.
Proof.
  intros ds de t k Hin Hk. rewrite calculate_dict. cbn [py_len rbind].
  destruct (Nat.eqb (List.length ds) (List.length de));
    [|eexists; reflexivity].
  destruct (@interpolate_items_missing ds (VDict de) t k Hin) as [e He].
  { intros e. unfold getitem_str, dict_item. rewrite Hk. discriminate. }
  rewrite He. eexists; reflexivity.
Qed.

Lemma interpolation_of_dict_missing_key_witness :
  exists e,
    _calculate_attribute_value
      (VDict [("r"%string, VFloat 0); ("g"%string, VFloat 0)])
      (VDict [("r"%string, VFloat 1); ("b"%string, VFloat 1)]) (1 # 2)
    = Raise e.
Proof.
  apply (@interpolation_of_dict_missing_key
           [("r"%string, VFloat 0); ("g"%string, VFloat 0)]
           [("r"%string, VFloat 1); ("b"%string, VFloat 1)] (1 # 2) "g").
  - right; left; reflexivity.
  - reflexivity.
Defined.





(* ------------------------------------------------------------------ *)
(** * The easing curves *)
(* ------------------------------------------------------------------ *)















(* ------------------------------------------------------------------ *)
(** * What never writes a target *)
(* ------------------------------------------------------------------ *)

Lemma _del_child_widgets s w W u W' :
  _del_child s w W = Ok (u, W') -> widgets W' = widgets W.
Proof. unfold _del_child. intros H. inv_all. reflexivity. Qed.

Lemma Repeat_stop_widgets r w W u W' :
  Repeat_stop r w W = Ok (u, W') -> widgets W' = widgets W.
Proof.
  unfold Repeat_stop. intros H. inv_all;
    try match goal with
      | H : _del_child _ _ _ = Ok _ |- _ => apply _del_child_widgets in H; exact H
      end; reflexivity.
Qed.

Lemma same_widgets_refl : forall W, same_widgets W W.
Proof. reflexivity. Qed.

Lemma same_widgets_trans :
  forall W1 W2 W3, same_widgets W1 W2 -> same_widgets W2 W3 -> same_widgets W1 W3.
Proof. unfold same_widgets. intros W1 W2 W3 H1 H2. now rewrite H2. Qed.

Lemma same_widgets_finish : forall W r rp w W',
  nth_error (repeats W) r = Some rp -> repeat_continues rp = false ->
  Repeat_stop r w (repeat_entered r w rp W) = Ok (tt, W') -> same_widgets W W'.
Proof. intros W r rp w W' _ _ H. apply Repeat_stop_widgets in H. exact H. Qed.

Ltac same_widgets_side :=
  first [ exact same_widgets_refl | exact same_widgets_trans
        | exact same_widgets_finish | (intros; reflexivity) ].

Lemma AnimationBase_stop_widgets fuel i W v W' :
  AnimationBase_stop fuel i W = Ok (v, W') -> widgets W' = widgets W.
Proof. apply (@respects_AnimationBase_stop same_widgets); same_widgets_side. Qed.

Lemma start_widgets fuel s w W u W' :
  start fuel s w W = Ok (u, W') -> widgets W' = widgets W.
Proof. apply (@respects_start same_widgets); same_widgets_side. Qed.

Lemma reset_widgets fuel s w W u W' :
  reset fuel s w W = Ok (u, W') -> widgets W' = widgets W.
Proof. apply (@respects_reset same_widgets); same_widgets_side. Qed.

Lemma set_widget_widgets s w W b W' :
  set_widget s w W = Ok (b, W') -> widgets W' = widgets W.
Proof. apply (@respects_set_widget same_widgets); same_widgets_side. Qed.

Lemma Repeat_start_widgets fuel r w W u W' :
  Repeat_start fuel r w W = Ok (u, W') -> widgets W' = widgets W.
Proof. apply (@respects_Repeat_start same_widgets); same_widgets_side. Qed.

Lemma Repeat_repeat_widgets fuel r w W u W' :
  Repeat_repeat fuel r w W = Ok (u, W') -> widgets W' = widgets W.
Proof. apply (@respects_Repeat_repeat same_widgets); same_widgets_side. Qed.

(** X9. Only the update of a tick writes a target: stopping an instance
    (with everything its completion sets off: the next child of a
    sequence, the restart by a controller), starting or resetting an
    animation, attaching a widget, starting or re-entering a controller
    leave every attribute of every widget as it is. *)
Theorem managing_never_writes_a_target :
  forall (fuel : nat) (W W' : World),
  managed fuel W W' -> widgets W' = widgets W.
Proof.
  intros fuel W W'
    [(i & v & H) | [(s & w & H) | [(s & w & H) | [(s & w & b & H)
    | [(r & w & H) | (r & w & H)]]]]].
  - eapply AnimationBase_stop_widgets; eauto.
  - eapply start_widgets; eauto.
  - eapply reset_widgets; eauto.
  - eapply set_widget_widgets; eauto.
  - eapply Repeat_start_widgets; eauto.
  - eapply Repeat_repeat_widgets; eauto.
Qed.

Lemma managing_never_writes_a_target_witness :
  widgets (world_of (AnimationBase_stop 8 0 shared_sequence_midway))
    = widgets shared_sequence_midway.
Proof.
  apply (@managing_never_writes_a_target 8 shared_sequence_midway
           (world_of (AnimationBase_stop 8 0 shared_sequence_midway))).
  left. exists 0%nat, (VBool false). vm_compute. reflexivity.
Defined.

(* ------------------------------------------------------------------ *)
(** * Ticks at the edges of the duration *)
(* ------------------------------------------------------------------ *)

(** X10. A tick on a running instance whose duration is zero and whose
    frame pointer has not passed it raises [ZeroDivisionError]: the
    progress is the frame pointer divided by the duration. *)
Theorem tick_with_zero_duration :
  forall (fuel : nat) (dt : Q) (i : nat) (W : World) (a : AnimationBase),
  nth_error (animobjs W) i = Some a ->
  running a = true ->
  duration a == 0 ->
  _frame_pointer a <= duration a ->
  AnimationBase__next_frame fuel dt i W = Raise ZeroDivisionError.
Proof.
  intros fuel dt i W a Ha Hr Hd Hfp.
  unfold AnimationBase__next_frame.
  unfold bind at 1. unfold get_animobj, deref. rewrite Ha, Hr.
  apply Qle_bool_iff in Hfp. rewrite Hfp. cbn [andb].
  unfold bind at 1. unfold py_div.
  apply Qeq_bool_iff in Hd. rewrite Hd. reflexivity.
Qed.

Lemma tick_with_zero_duration_witness :
  AnimationBase__next_frame 8 (1 # 60) 0
    (world_of (leaf_with_duration (VInt 0) empty_world))
  = Raise ZeroDivisionError.
Proof.
  apply (@tick_with_zero_duration 8 (1 # 60) 0
           (world_of (leaf_with_duration (VInt 0) empty_world))
           (animobj_at (world_of (leaf_with_duration (VInt 0) empty_world)) 0));
    vm_compute; first [reflexivity | discriminate].
Defined.

Lemma next_frame_past_duration fuel dt i W W' a keep :
  nth_error (animobjs W) i = Some a ->
  duration a < _frame_pointer a ->
  AnimationBase__next_frame fuel dt i W = Ok (keep, W') ->
  keep = false /\ widgets W' = widgets W.
Proof.
  intros Ha Hfp H.
  unfold AnimationBase__next_frame in H.
  unfold bind at 1 in H. unfold get_animobj at 1, deref in H. rewrite Ha in H.
  assert (Hb : Qle_bool (_frame_pointer a) (duration a) = false).
  { destruct (Qle_bool (_frame_pointer a) (duration a)) eqn:B; [|reflexivity].
    apply Qle_bool_iff in B. exfalso. eapply Qlt_not_le; eauto. }
  rewrite Hb in H. cbn [andb] in H.
  apply bind_Ok in H as (v & W1 & Hs & H). apply ret_Ok in H as [-> ->].
  split; [reflexivity|]. eapply AnimationBase_stop_widgets; eauto.
Qed.

(** X11. A tick on an instance whose frame pointer has passed its duration
    writes no target and returns [False]. In particular an animation with
    a negative duration never moves its target: its first tick already
    finds the frame pointer, 0, past the duration. *)
Theorem tick_past_duration_writes_nothing :
  forall (fuel : nat) (dt : Q) (i : nat) (W W' : World) (a : AnimationBase)
         (keep : bool),
  nth_error (animobjs W) i = Some a ->
  duration a < _frame_pointer a ->
  AnimationBase__next_frame fuel dt i W = Ok (keep, W') ->
  keep = false /\ widgets W' = widgets W.
Proof.
  intros fuel dt i W W' a keep Ha Hfp H.
  eapply next_frame_past_duration; eauto.
Qed.

Lemma tick_past_duration_writes_nothing_witness :
  false = false /\
  widgets (world_of (AnimationBase__next_frame 8 (1 # 60) 0
                       (world_of (leaf_with_duration (VInt (-1)) empty_world))))
  = widgets (world_of (leaf_with_duration (VInt (-1)) empty_world)).
Proof.
  apply (@tick_past_duration_writes_nothing 8 (1 # 60) 0
           (world_of (leaf_with_duration (VInt (-1)) empty_world))
           (world_of (AnimationBase__next_frame 8 (1 # 60) 0
                        (world_of (leaf_with_duration (VInt (-1)) empty_world))))
           (animobj_at (world_of (leaf_with_duration (VInt (-1)) empty_world)) 0)
           false);
    vm_compute; reflexivity.
Defined.

(* ------------------------------------------------------------------ *)
(** * Attaching *)
(* ------------------------------------------------------------------ *)

(** X12. A leaf spec holds one instance per target: once a widget has been
    attached to it, attaching the same widget again returns [False] and
    changes nothing. *)
Theorem second_attach_is_rejected :
  forall (s w : nat) (W W1 : World),
  Animation_set_widget s w W = Ok (true, W1) ->
  Animation_set_widget s w W1 = Ok (false, W1).
Proof.
  intros s w W W1 H. unfold Animation_set_widget in H.
  apply bind_Ok in H as (sp & W0 & Hs & H). apply deref_Ok in Hs as [Hs ->].
  destruct (children_get (children sp) w) as [j|] eqn:Hc.
  { apply ret_Ok in H as [H _]. discriminate H. }
  apply bind_Ok in H as (i & W2 & Hmk & H).
  apply bind_Ok in H as (u & W3 & Hup & H). apply ret_Ok in H as [_ ->].
  apply update_anim_Ok in Hup as (sp2 & E2 & ->).
  unfold Animation_set_widget, bind, get_anim, deref.
  unfold with_anims at 1; cbn [anims].
  erewrite nth_error_list_set_same by exact E2.
  cbn [children set_children]. rewrite children_get_set_same. reflexivity.
Qed.

Lemma second_attach_is_rejected_witness :
  Animation_set_widget 0 0 (world_of (Animation_set_widget 0 0 three_animations_world_with_widget))
  = Ok (false, world_of (Animation_set_widget 0 0 three_animations_world_with_widget)).
Proof.
  apply (@second_attach_is_rejected 0 0 three_animations_world_with_widget).
  vm_compute. reflexivity.
Defined.

(** X13. Starting, resetting or stopping a leaf animation on a widget that
    is not attached to it, and deleting the instance of such a widget,
    raise [KeyError]. *)
Theorem unattached_widget_raises_KeyError :
  forall (fuel s w : nat) (W : World) (sp : Animation),
  nth_error (anims W) s = Some sp ->
  cls sp = CAnimation ->
  children_get (children sp) w = None ->
  start (2 + fuel) s w W = Raise KeyError /\
  reset (1 + fuel) s w W = Raise KeyError /\
  Animation_stop fuel s w W = Raise KeyError /\
  _del_child s w W = Raise KeyError.
Proof.
  intros fuel s w W sp Hs Hc Hw.
  assert (Hco : child_of s w W = Raise KeyError).
  { unfold child_of, bind, get_anim, deref. rewrite Hs, Hw. reflexivity. }
  repeat split.
  - cbn [start Nat.add]. unfold bind at 1. unfold get_anim, deref.
    rewrite Hs, Hc. cbn [Animation_start]. unfold bind at 1. now rewrite Hco.
  - cbn [reset Nat.add]. unfold bind at 1. unfold get_anim, deref.
    rewrite Hs, Hc. unfold bind at 1. now rewrite Hco.
  - unfold Animation_stop. unfold bind at 1. now rewrite Hco.
  - unfold _del_child, bind, get_anim, deref. rewrite Hs, Hw. reflexivity.
Qed.

Lemma unattached_widget_raises_KeyError_witness :
  start (2 + 0) 0 0 three_animations_world_with_widget = Raise KeyError /\
  reset (1 + 0) 0 0 three_animations_world_with_widget = Raise KeyError /\
  Animation_stop 0 0 0 three_animations_world_with_widget = Raise KeyError /\
  _del_child 0 0 three_animations_world_with_widget = Raise KeyError.
Proof.
  apply (@unattached_widget_raises_KeyError 0 0 0
           three_animations_world_with_widget
           (anim_at three_animations_world_with_widget 0));
    reflexivity.
Defined.

(* ------------------------------------------------------------------ *)
(** * Composition with [+] and [&] *)
(* ------------------------------------------------------------------ *)

Lemma Animation_add_plain a b W spa :
  nth_error (anims W) a = Some spa -> cls spa = CAnimation ->
  Animation_add a b W =
    Ok (List.length (anims W),
        with_anims (anims W ++
          [mkAnimation CSequenceAnimation (VFloat 1) []
             (spec_params (Animation_fields CSequenceAnimation []))
             (VStr "absolute") (VBool false) [a; b] 0 0 []]) W) /\
  Animation_and a b W =
    Ok (List.length (anims W),
        with_anims (anims W ++
          [mkAnimation CParallelAnimation (VFloat 1) []
             (spec_params (Animation_fields CParallelAnimation []))
             (VStr "absolute") (VBool false) [a; b] 0 0 []]) W).
Proof.
  intros Ha Hc. unfold Animation_add, Animation_and, bind, get_anim, deref.
  rewrite Ha, Hc. split; reflexivity.
Qed.

(** X14. [+] and [&] flatten on the left: [(a + b) + c] is a sequence of
    the three children [a], [b], [c], and [(a & b) & c] a parallel of the
    three, each a new object with its counter at 0. A composite of the
    other kind is not flattened: [(a & b) + c] is a sequence of two
    children, the parallel and [c]. *)
Theorem composition_flattens_on_the_left :
  forall (a b c : nat) (W : World) (spa : Animation),
  nth_error (anims W) a = Some spa ->
  cls spa = CAnimation ->
  (exists ab abc W1 W2 sp,
     Animation_add a b W = Ok (ab, W1) /\
     Animation_add ab c W1 = Ok (abc, W2) /\
     nth_error (anims W2) abc = Some sp /\
     cls sp = CSequenceAnimation /\ animations sp = [a; b; c] /\
     anim_counter sp = 0%nat) /\
  (exists ab abc W1 W2 sp,
     Animation_and a b W = Ok (ab, W1) /\
     Animation_and ab c W1 = Ok (abc, W2) /\
     nth_error (anims W2) abc = Some sp /\
     cls sp = CParallelAnimation /\ animations sp = [a; b; c] /\
     dispatch_counter sp = 0%nat) /\
  (exists ab abc W1 W2 sp,
     Animation_and a b W = Ok (ab, W1) /\
     Animation_add ab c W1 = Ok (abc, W2) /\
     nth_error (anims W2) abc = Some sp /\
     cls sp = CSequenceAnimation /\ animations sp = [ab; c]).
Proof.
  intros a b c W spa Ha Hc.
  destruct (@Animation_add_plain a b W spa Ha Hc) as [Hadd Hand].
  split; [|split].
  - do 5 eexists. split; [exact Hadd|]. split.
    + unfold Animation_add, bind, get_anim, deref.
      unfold with_anims at 1; cbn [anims]. rewrite nth_error_snoc.
      cbn [cls animations]. reflexivity.
    + split; [unfold with_anims; cbn [anims]; apply nth_error_snoc|].
      repeat split.
  - do 5 eexists. split; [exact Hand|]. split.
    + unfold Animation_and, bind, get_anim, deref.
      unfold with_anims at 1; cbn [anims]. rewrite nth_error_snoc.
      cbn [cls animations]. reflexivity.
    + split; [unfold with_anims; cbn [anims]; apply nth_error_snoc|].
      repeat split.
  - do 5 eexists. split; [exact Hand|]. split.
    + unfold Animation_add, bind, get_anim, deref.
      unfold with_anims at 1; cbn [anims]. rewrite nth_error_snoc.
      cbn [cls animations]. reflexivity.
    + split; [unfold with_anims; cbn [anims]; apply nth_error_snoc|].
      repeat split.
Qed.

Lemma composition_flattens_on_the_left_witness :
  (exists ab abc W1 W2 sp,
     Animation_add 0 1 three_animations_world = Ok (ab, W1) /\
     Animation_add ab 2 W1 = Ok (abc, W2) /\
     nth_error (anims W2) abc = Some sp /\
     cls sp = CSequenceAnimation /\ animations sp = [0; 1; 2]%nat /\
     anim_counter sp = 0%nat) /\
  (exists ab abc W1 W2 sp,
     Animation_and 0 1 three_animations_world = Ok (ab, W1) /\
     Animation_and ab 2 W1 = Ok (abc, W2) /\
     nth_error (anims W2) abc = Some sp /\
     cls sp = CParallelAnimation /\ animations sp = [0; 1; 2]%nat /\
     dispatch_counter sp = 0%nat) /\
  (exists ab abc W1 W2 sp,
     Animation_and 0 1 three_animations_world = Ok (ab, W1) /\
     Animation_add ab 2 W1 = Ok (abc, W2) /\
     nth_error (anims W2) abc = Some sp /\
     cls sp = CSequenceAnimation /\ animations sp = [ab; 2%nat]).
Proof.
  apply (@composition_flattens_on_the_left 0 1 2 three_animations_world
           (anim_at three_animations_world 0)); reflexivity.
Defined.

(* ------------------------------------------------------------------ *)
(** * The property table of an instance *)
(* ------------------------------------------------------------------ *)

Lemma bind_props_keys binding attrs items pl :
  bind_props binding attrs items = Ok pl -> map fst pl = map fst items.
Proof.
  revert pl; induction items as [|[p x] items IH]; intros pl H; simpl in H.
  - inversion H. reflexivity.
  - apply rbind_Ok in H as (cval & _ & H).
    apply rbind_Ok in H as (b & _ & H).
    apply rbind_Ok in H as (r & Hr & H).
    inversion H; subst. simpl. now rewrite (IH _ Hr).
Qed.

Lemma property_items_not_excluded kwargs k :
  In k (map fst (property_items kwargs)) -> ~ In k excluded_keys.
Proof.
  unfold property_items. intros H Hex.
  apply in_map_iff in H as ([k' v] & <- & H).
  apply filter_In in H as [_ H]. cbn [fst] in H.
  unfold is_property in H. apply negb_true_iff in H.
  assert (E : existsb (String.eqb k') excluded_keys = true).
  { apply existsb_exists. exists k'. split; [exact Hex | apply String.eqb_refl]. }
  cbn [fst] in Hex. congruence.
Qed.

(** X15. The property table of a new instance, absolute or delta, has the
    keys of the keyword arguments that are not reserved, in their order.
    An attribute named [duration], [d], [f], [alpha_function], [type],
    [generate_event], [single_event], [anim1] or [anim2] is therefore
    never animated. *)
Theorem reserved_keywords_are_not_properties :
  forall (attrs : dict) (w : nat) (kwargs : dict) (an : nat)
         (a : AnimationBase),
  AbsoluteAnimationBase_init attrs w kwargs an = Ok a \/
  DeltaAnimationBase_init attrs w kwargs an = Ok a ->
  map fst (_prop_list a) = map fst (property_items kwargs) /\
  forall k, In k excluded_keys -> ~ In k (map fst (_prop_list a)).
Proof.
  intros attrs w kwargs an a H.
  assert (E : map fst (_prop_list a) = map fst (property_items kwargs)).
  { destruct H as [H | H];
      [unfold AbsoluteAnimationBase_init in H
      | unfold DeltaAnimationBase_init in H];
      apply rbind_Ok in H as (a0 & _ & H);
      apply rbind_Ok in H as (pl & Hpl & H);
      inversion H; subst; cbn [_prop_list];
      eapply bind_props_keys; eauto. }
  split; [exact E|].
  intros k Hk Hin. rewrite E in Hin.
  now apply property_items_not_excluded in Hin.
Qed.

Lemma reserved_keywords_are_not_properties_witness :
  map fst (_prop_list mixed_instance) = map fst (property_items mixed_kwargs) /\
  forall k, In k excluded_keys -> ~ In k (map fst (_prop_list mixed_instance)).
Proof.
  apply (@reserved_keywords_are_not_properties [("x"%string, VInt 0)] 0
           mixed_kwargs 0).
  left. vm_compute. reflexivity.
Defined.

(** X16. The keyword [d] sets the [duration] attribute of the spec, but an
    instance reads the keyword [duration] only: for a spec constructed
    with a truthy [d] and no [duration], the spec shows [d] as its
    duration and every instance created from it runs for 1 second. *)
Theorem d_shortcut_does_not_reach_the_instance :
  forall (k : anim_class) (kwargs : dict) (dv : value),
  dict_get kwargs "duration" = None ->
  dict_get kwargs "d" = Some dv ->
  truthy dv = true ->
  spec_duration (Animation_fields k kwargs) = dv /\
  forall c w an a,
    AnimationBase_init c w (spec_params (Animation_fields k kwargs)) an = Ok a ->
    duration a = 1.
Proof.
  intros k kwargs dv Hdur Hd Ht. split.
  - unfold Animation_fields; cbn [spec_duration].
    rewrite !dict_get_setdefault. cbn. rewrite Hd, Ht. reflexivity.
  - intros c w an a H. unfold AnimationBase_init, dict_item in H.
    rewrite (params_of_new_animation k kwargs "duration") in H.
    cbn in H. rewrite Hdur in H. cbn [rbind py_float] in H.
    apply rbind_Ok in H as (f & _ & H).
    apply rbind_Ok in H as (ge & _ & H).
    inversion H. reflexivity.
Qed.

Lemma d_shortcut_does_not_reach_the_instance_witness :
  spec_duration (Animation_fields CAnimation
                   [("d"%string, VInt 5); ("x"%string, VInt 100)]) = VInt 5 /\
  forall c w an a,
    AnimationBase_init c w
      (spec_params (Animation_fields CAnimation
                      [("d"%string, VInt 5); ("x"%string, VInt 100)])) an = Ok a ->
    duration a = 1.
Proof.
  apply (@d_shortcut_does_not_reach_the_instance CAnimation
           [("d"%string, VInt 5); ("x"%string, VInt 100)] (VInt 5));
    reflexivity.
Defined.

Lemma restrict_into_spec cd keys : forall acc temp,
  restrict_into acc cd keys = Ok temp ->
  forall k,
    (In k keys -> dict_get temp k = dict_get cd k /\ dict_get cd k <> None) /\
    (~ In k keys -> dict_get temp k = dict_get acc k).
Proof.
  induction keys as [|k0 keys IH]; intros acc temp H k; simpl in H.
  - inversion H; subst. split; [intros [] | reflexivity].
  - apply rbind_Ok in H as (v & Hv & H).
    unfold dict_item in Hv.
    destruct (dict_get cd k0) as [v0|] eqn:G; [|discriminate].
    inversion Hv; subst v0.
    destruct (IH _ _ H k) as [Hin Hout].
    destruct (in_dec String.string_dec k keys) as [Hk | Hk].
    + split; [intros _; now apply Hin | intros Hn; exfalso; apply Hn; now right].
    + split.
      * intros [<- | Hk']; [|contradiction].
        rewrite (Hout Hk), dict_get_set_same, G. split; [reflexivity | discriminate].
      * intros Hn. rewrite (Hout Hk).
        apply dict_get_set_other. intros ->. apply Hn. now left.
Qed.

(** X17. For a dictionary-valued attribute, an absolute animation takes as
    its start value only the keys it animates: the start dictionary holds,
    for every key of the target dictionary, the widget's value under that
    key, and nothing else. The widget must have every such key. *)
Theorem dictionary_start_is_restricted_to_the_target_keys :
  forall (cd td : dict) (vstart vend : value),
  absolute_binding (VDict cd) (VDict td) = Ok (vstart, vend) ->
  vend = VDict td /\
  exists temp,
    vstart = VDict temp /\
    (forall k, In k (dict_keys td) ->
               dict_get temp k = dict_get cd k /\ dict_get cd k <> None) /\
    (forall k, ~ In k (dict_keys td) -> dict_get temp k = None).
Proof.
  intros cd td vstart vend H. unfold absolute_binding in H.
  cbn [iter_keys rbind] in H.
  apply rbind_Ok in H as (temp & Ht & H). inversion H; subst.
  split; [reflexivity|]. exists temp. split; [reflexivity|].
  split; intros k Hk; now apply (restrict_into_spec _ _ _ Ht k).
Qed.

Lemma dictionary_start_is_restricted_to_the_target_keys_witness :
  VDict [("bg"%string, VInt 7)] = VDict [("bg"%string, VInt 7)] /\
  exists temp,
    VDict [("bg"%string, VInt 1)] = VDict temp /\
    (forall k, In k (dict_keys [("bg"%string, VInt 7)]) ->
       dict_get temp k
         = dict_get [("fg"%string, VInt 0); ("bg"%string, VInt 1)] k /\
       dict_get [("fg"%string, VInt 0); ("bg"%string, VInt 1)] k <> None) /\
    (forall k, ~ In k (dict_keys [("bg"%string, VInt 7)]) ->
       dict_get temp k = None).
Proof.
  apply (@dictionary_start_is_restricted_to_the_target_keys
           [("fg"%string, VInt 0); ("bg"%string, VInt 1)]
           [("bg"%string, VInt 7)]).
  reflexivity.
Defined.

Lemma update_list_from_length ip op : forall i l,
  update_list_from i ip op = Ok l ->
  List.length l = List.length ip /\
  forall ol, is_sequence op = Some ol ->
             ip = [] \/ (i + List.length ip <= List.length ol)%nat.
Proof.
  induction ip as [|x ip IH]; intros i l H; simpl in H.
  - inversion H. split; [reflexivity | intros; now left].
  - apply rbind_Ok in H as (y & Hy & H).
    apply rbind_Ok in H as (s & _ & H).
    apply rbind_Ok in H as (rest & Hrest & H).
    inversion H; subst. destruct (IH _ _ Hrest) as [Hl Hb].
    split; [simpl; now rewrite Hl|].
    intros ol Hol. right.
    assert (Hi : (i < List.length ol)%nat).
    { apply nth_error_Some.
      destruct op; try discriminate; cbn in Hol; inversion Hol; subst;
        cbn in Hy; destruct (nth_error ol i); discriminate. }
    destruct (Hb ol Hol) as [-> | Hb']; simpl; lia.
Qed.

(** X18. [_update_list] adds the deltas to a list element by element: when
    it succeeds, the result is a list as long as the input list, and a list
    or tuple of deltas is at least that long (elements beyond are
    ignored). With fewer deltas than elements it fails. *)
Theorem update_list_length :
  forall (ip_list : list value) (op_list v : value),
  _update_list ip_list op_list = Ok v ->
  exists l, v = VList l /\ List.length l = List.length ip_list /\
    forall ol, is_sequence op_list = Some ol ->
               (List.length ip_list <= List.length ol)%nat.
Proof.
  intros ip op v H. unfold _update_list in H.
  apply rbind_Ok in H as (l & Hl & H). inversion H; subst.
  exists l. split; [reflexivity|].
  apply update_list_from_length in Hl as [Hlen Hb]. split; [exact Hlen|].
  intros ol Hol. destruct (Hb ol Hol) as [-> | Hb']; simpl; lia.
Qed.

Lemma update_list_length_witness :
  exists l, VList [VInt 11; VInt 22] = VList l /\
    List.length l = List.length [VInt 1; VInt 2] /\
    forall ol, is_sequence (VTuple [VInt 10; VInt 20; VInt 30]) = Some ol ->
               (List.length [VInt 1; VInt 2] <= List.length ol)%nat.
Proof.
  apply (@update_list_length [VInt 1; VInt 2]
           (VTuple [VInt 10; VInt 20; VInt 30])).
  reflexivity.
Defined.

(** X19. [start()] on an instance registers its tick callback once: after
    a [start()], a second [start()] changes nothing. *)
Theorem start_twice_schedules_once :
  forall (i : nat) (W W1 : World),
  AnimationBase_start i W = Ok (tt, W1) ->
  AnimationBase_start i W1 = Ok (tt, W1).
Proof.
  intros i W W1 H. unfold AnimationBase_start in H.
  apply bind_Ok in H as (a & W0 & Ha & H). apply deref_Ok in Ha as [Ha ->].
  destruct (running a) eqn:Hr.
  - apply ret_Ok in H as [_ ->].
    unfold AnimationBase_start, bind, get_animobj, deref. now rewrite Ha, Hr.
  - apply bind_Ok in H as (u & W2 & Hup & H).
    apply update_animobj_Ok in Hup as (a0 & E & ->).
    unfold schedule_interval in H. apply modify_Ok in H. subst W1.
    unfold AnimationBase_start, bind, get_animobj, deref.
    unfold with_clock, with_animobjs; cbn [animobjs].
    erewrite nth_error_list_set_same by exact E.
    reflexivity.
Qed.

Lemma start_twice_schedules_once_witness :
  AnimationBase_start 0 (world_of (AnimationBase_start 0 tuple_world))
  = Ok (tt, world_of (AnimationBase_start 0 tuple_world)).
Proof.
  apply (@start_twice_schedules_once 0 tuple_world). reflexivity.
Defined.

(* ------------------------------------------------------------------ *)
(** * The [Repeat] controller, for any number of repetitions *)
(* ------------------------------------------------------------------ *)



Section EndlessInvariant.

Variable r : nat.

Let R (W W' : World) : Prop := endless_invariant r W -> endless_invariant r W'.






End EndlessInvariant.



(** In that scene the controller is in its sixth repetition and the target
    has moved by six deltas. *)
Lemma endless_scene_signals :
  repeat_signals 0
    (log (world_of ((Repeat_set_widget 0 0 ;;; Repeat_start 9 0 0 ;;;
                     run_ticks 9 (repeat_ticks ++ repeat_ticks))
                      endless_constructed_world)))
  = repeats_up_to 6.
Proof. vm_compute. reflexivity. Qed.

(* ------------------------------------------------------------------ *)
(** * Restarting an absolute animation *)
(* ------------------------------------------------------------------ *)

Lemma reset_absolute_leaf fuel s w W sp i a :
  nth_error (anims W) s = Some sp -> cls sp = CAnimation ->
  children_get (children sp) w = Some i ->
  nth_error (animobjs W) i = Some a ->
  ab_cls a = AbsoluteAnimationBase ->
  reset (S fuel) s w W = Ok (tt, W).
Proof.
  intros Hs Hc Hi Ha Hab. cbn [reset].
  unfold bind at 1. unfold get_anim, deref. rewrite Hs, Hc.
  unfold bind at 1. unfold child_of, bind at 1, get_anim, deref. rewrite Hs.
  rewrite Hi. unfold ret.
  unfold AnimationBase_reset, bind, get_animobj, deref. rewrite Ha, Hab.
  reflexivity.
Qed.

Lemma start_leaf fuel s w W sp i a W1 :
  nth_error (anims W) s = Some sp -> cls sp = CAnimation ->
  children_get (children sp) w = Some i ->
  nth_error (animobjs W) i = Some a ->
  start fuel s w W = Ok (tt, W1) ->
  widgets W1 = widgets W /\
  exists a1, nth_error (animobjs W1) i = Some a1 /\
             _frame_pointer a1 = _frame_pointer a /\
             duration a1 = duration a /\ running a1 = true.
Proof.
  intros Hs Hc Hi Ha H.
  destruct fuel as [|fuel]; [discriminate|]. cbn [start] in H.
  apply bind_Ok in H as (sp0 & W0 & H0 & H). apply deref_Ok in H0 as [H0 ->].
  rewrite Hs in H0. inversion H0; subst sp0; clear H0. rewrite Hc in H.
  destruct fuel as [|fuel]; [discriminate|]. cbn [Animation_start] in H.
  apply bind_Ok in H as (i0 & W0 & H0 & H).
  apply child_of_Ok in H0 as (-> & sp0 & Hs0 & Hi0).
  rewrite Hs in Hs0. inversion Hs0; subst sp0; clear Hs0.
  rewrite Hi in Hi0. inversion Hi0; subst i0; clear Hi0.
  apply bind_Ok in H as (u & W2 & Hst & H).
  destruct fuel as [|fuel]; [discriminate|]. cbn [Animation_dispatch_event] in H.
  apply bind_Ok in H as (u1 & W3 & He & H). apply emit_Ok in He. subst W3.
  change (String.eqb "on_start" "on_complete") with false in H.
  apply ret_Ok in H as [_ ->].
  unfold with_log; cbn [widgets animobjs].
  unfold AnimationBase_start in Hst.
  apply bind_Ok in Hst as (a0 & W0 & H0 & Hst). apply deref_Ok in H0 as [H0 ->].
  rewrite Ha in H0. inversion H0; subst a0; clear H0.
  destruct (running a) eqn:Hr.
  - apply ret_Ok in Hst as [_ ->]. split; [reflexivity|].
    exists a. auto.
  - apply bind_Ok in Hst as (u2 & W4 & Hup & Hst).
    apply update_animobj_Ok in Hup as (a0 & E & ->).
    rewrite Ha in E. inversion E; subst a0; clear E.
    unfold schedule_interval in Hst. apply modify_Ok in Hst. subst W2.
    unfold with_clock, with_animobjs; cbn [widgets animobjs].
    split; [reflexivity|].
    exists (set_running true a). split.
    + eapply nth_error_list_set_same; eauto.
    + destruct a; cbn. auto.
Qed.

(** X22. An absolute animation cannot be played again. [reset] leaves the
    whole store as it is (the frame pointer is not rewound), so after a
    completed run, [reset] and [start] on the same widget register the
    callback again and announce [on_start], but the first tick finds the
    frame pointer past the duration: it writes no target and returns
    [False]. *)
Theorem absolute_animation_is_not_rewound :
  forall (fuel s w i : nat) (W W1 W2 : World) (sp : Animation)
         (a : AnimationBase) (dt : Q) (keep : bool),
  nth_error (anims W) s = Some sp -> cls sp = CAnimation ->
  children_get (children sp) w = Some i ->
  nth_error (animobjs W) i = Some a ->
  ab_cls a = AbsoluteAnimationBase ->
  duration a < _frame_pointer a ->
  (reset (S fuel) s w ;;; start (S fuel) s w) W = Ok (tt, W1) ->
  AnimationBase__next_frame fuel dt i W1 = Ok (keep, W2) ->
  reset (S fuel) s w W = Ok (tt, W) /\
  keep = false /\ widgets W2 = widgets W.
Proof.
  intros fuel s w i W W1 W2 sp a dt keep Hs Hc Hi Ha Hab Hfp Hrs Ht.
  pose proof (@reset_absolute_leaf fuel s w W sp i a Hs Hc Hi Ha Hab) as Hreset.
  split; [exact Hreset|].
  unfold bind in Hrs. rewrite Hreset in Hrs.
  destruct (@start_leaf (S fuel) s w W sp i a W1 Hs Hc Hi Ha Hrs)
    as (Hw & a1 & Ha1 & Hf1 & Hd1 & _).
  assert (Hfp1 : duration a1 < _frame_pointer a1) by (rewrite Hf1, Hd1; exact Hfp).
  destruct (@next_frame_past_duration fuel dt i W1 W2 a1 keep Ha1 Hfp1 Ht)
    as [Hk Hw2].
  split; [exact Hk|]. now rewrite Hw2.
Qed.

(** The leaf scene after its run: [x] has reached 100 and stays there. *)
Lemma absolute_animation_is_not_rewound_witness :
  reset 8 0 0 leaf_finished_world = Ok (tt, leaf_finished_world) /\
  false = false /\
  widgets (world_of (AnimationBase__next_frame 7 (1 # 2) 0
                       (world_of ((reset 8 0 0 ;;; start 8 0 0)
                                    leaf_finished_world))))
  = widgets leaf_finished_world.
Proof.
  apply (@absolute_animation_is_not_rewound 7 0 0 0 leaf_finished_world
           (world_of ((reset 8 0 0 ;;; start 8 0 0) leaf_finished_world))
           (world_of (AnimationBase__next_frame 7 (1 # 2) 0
                        (world_of ((reset 8 0 0 ;;; start 8 0 0)
                                     leaf_finished_world))))
           (anim_at leaf_finished_world 0)
           (animobj_at leaf_finished_world 0) (1 # 2) false);
    vm_compute; reflexivity.
Defined.

(* ------------------------------------------------------------------ *)
(** * Two absolute animations in parallel *)
(* ------------------------------------------------------------------ *)



Section ParallelRun.

Variables (se : bool) (d1 d2 : Q) (tx ty x0 y0 : value).
Hypothesis d1_positive : 0 < d1.
Hypothesis d2_positive : 0 < d2.
Hypothesis x0_number : is_number x0 = true.
Hypothesis y0_number : is_number y0 = true.
Hypothesis tx_number : is_number tx = true.
Hypothesis ty_number : is_number ty = true.








End ParallelRun.



(** The run of the witness does complete, with [x] at 100 and [y] at
    200.0. *)
Lemma parallel_run_example :
  let W := world_of ((parallel_scene 5 false 1 2 (VInt 100) (VInt 200)
                        (VInt 0) (VFloat 5) ;;;
                      run_ticks 5 [1; 1; 1; 1]) empty_world) in
  clock W = [] /\ widget_attr W 0 "x" = Some (VInt 100) /\
  exists yv, widget_attr W 0 "y" = Some yv /\ py_eq yv (VFloat 200).
Proof.
  vm_compute. split; [reflexivity|]. split; [reflexivity|].
  eexists. split; reflexivity.
Qed.

(* ------------------------------------------------------------------ *)
(** * Attaching a composite *)
(* ------------------------------------------------------------------ *)

Lemma AnimationBase_init_fields c w k s a :
  AnimationBase_init c w k s = Ok a ->
  animator a = s /\ widget a = w /\ running a = false /\ _frame_pointer a = 0.
Proof.
  unfold AnimationBase_init. intros H.
  apply rbind_Ok in H as (d0 & _ & H). apply rbind_Ok in H as (d & _ & H).
  apply rbind_Ok in H as (f & _ & H). apply rbind_Ok in H as (ge & _ & H).
  inversion H; subst. cbn. auto.
Qed.

Lemma make_animobj_Ok ty w k s W i W' :
  make_animobj ty w k s W = Ok (i, W') ->
  exists a,
    i = List.length (animobjs W) /\
    W' = with_animobjs (animobjs W ++ [a]) W /\
    animator a = s /\ widget a = w /\ running a = false /\
    _frame_pointer a = 0 /\
    map fst (_prop_list a) = map fst (property_items k).
Proof.
  unfold make_animobj. intros H.
  apply bind_Ok in H as (attrs & W0 & H0 & H). apply deref_Ok in H0 as [_ ->].
  apply bind_Ok in H as (a & W0 & Ha & H). apply lift_Ok in Ha as [Ha ->].
  unfold new_animobj in H. inversion H; subst. exists a.
  split; [reflexivity|]. split; [reflexivity|].
  destruct (is_absolute ty);
    [unfold AbsoluteAnimationBase_init in Ha
    |unfold DeltaAnimationBase_init in Ha];
    apply rbind_Ok in Ha as (a0 & H0 & Ha);
    apply rbind_Ok in Ha as (pl & Hpl & Ha);
    apply AnimationBase_init_fields in H0 as (? & ? & ? & ?);
    apply bind_props_keys in Hpl;
    inversion Ha; subst; cbn; auto 6.
Qed.

Lemma children_get_set_other c w w' i :
  w' <> w -> children_get (children_set c w i) w' = children_get c w'.
Proof.
  intros Hw. induction c as [|[w0 j] c IH]; simpl.
  - destruct (Nat.eqb w w') eqn:E; [apply Nat.eqb_eq in E; congruence | reflexivity].
  - destruct (Nat.eqb w0 w) eqn:E; simpl.
    + apply Nat.eqb_eq in E; subst w0.
      destruct (Nat.eqb w w') eqn:E'; [apply Nat.eqb_eq in E'; congruence|].
      reflexivity.
    + now rewrite IH.
Qed.

(** One round of the loop of [ComplexAnimation.set_widget]: the child is
    bound, and the children bound before stay bound. *)
Lemma attach_child s w c W u W' :
  (an <- get_anim c ;;
   i <- make_animobj (_animation_type an) w (spec_params an) s ;;
   update_anim c
     (fun an => set_children (children_set (children an) w i) an)) W
    = Ok (u, W') ->
  bound_to W' s w c /\ forall c', bound_to W s w c' -> bound_to W' s w c'.
Proof.
  intros H.
  apply bind_Ok in H as (an & W0 & H0 & H). apply deref_Ok in H0 as [Han ->].
  apply bind_Ok in H as (i & W1 & Hm & H).
  apply make_animobj_Ok in Hm as (a & -> & -> & Hs & Hw & Hr & Hf & Hp).
  apply update_anim_Ok in H as (an' & Han' & ->).
  unfold with_animobjs in Han'; cbn [anims] in Han'.
  rewrite Han in Han'. inversion Han'; subst an'; clear Han'.
  assert (Hnew : bound_to
            (with_anims
               (list_set (anims (with_animobjs (animobjs W ++ [a]) W)) c
                  (set_children
                     (children_set (children an) w (List.length (animobjs W)))
                     an))
               (with_animobjs (animobjs W ++ [a]) W)) s w c).
  { do 3 eexists. unfold with_anims, with_animobjs; cbn [anims animobjs].
    split; [eapply nth_error_list_set_same; eauto|].
    split; [cbn [children set_children]; apply children_get_set_same|].
    split; [rewrite nth_error_app2 by lia; rewrite Nat.sub_diag; reflexivity|].
    cbn [spec_params set_children]. auto 6. }
  split; [exact Hnew|].
  intros c' (spc & j & b & Hc' & Hj & Hb & Hrest).
  destruct (Nat.eq_dec c' c) as [-> | Hne]; [exact Hnew|].
  exists spc, j, b. unfold with_anims, with_animobjs; cbn [anims animobjs].
  split; [rewrite nth_error_list_set_other by congruence; exact Hc'|].
  split; [exact Hj|].
  split; [|exact Hrest].
  rewrite nth_error_app1; [exact Hb|].
  apply nth_error_Some. congruence.
Qed.

Lemma attach_children s w l : forall W u W',
  forM_ l (fun animation =>
    an <- get_anim animation ;;
    i <- make_animobj (_animation_type an) w (spec_params an) s ;;
    update_anim animation
      (fun an => set_children (children_set (children an) w i) an)) W
    = Ok (u, W') ->
  (forall c, In c l -> bound_to W' s w c) /\
  (forall c, bound_to W s w c -> bound_to W' s w c).
Proof.
  induction l as [|c l IH]; intros W u W' H; cbn [forM_] in H.
  - apply ret_Ok in H as [_ ->]. split; [intros c [] | auto].
  - apply bind_Ok in H as (u1 & W1 & H1 & H).
    apply attach_child in H1 as [Hc Hkeep].
    apply IH in H as [Hl Hkeep'].
    split.
    + intros c' [<- | Hin]; [apply Hkeep'; exact Hc | now apply Hl].
    + intros c' Hb. apply Hkeep', Hkeep, Hb.
Qed.

(** X24. Attaching a sequence or a parallel composition to a widget either
    is refused, when an instance of one of its children is running on that
    widget ([False] is returned and the store is as before), or binds
    every child anew ([True] is returned): each child then holds for the
    widget a new instance that is not running, is at frame 0, has one
    binding per property of the child, and has the composition itself, not
    the child, as its animator. *)
Theorem composite_attach_binds_every_child :
  forall (s w : nat) (W W' : World) (sp : Animation) (b : bool),
  nth_error (anims W) s = Some sp ->
  cls sp <> CAnimation ->
  set_widget s w W = Ok (b, W') ->
  (existsb (child_is_running W w) (animations sp) = true /\
   b = false /\ W' = W)
  \/
  (existsb (child_is_running W w) (animations sp) = false /\
   b = true /\ forall c, In c (animations sp) -> bound_to W' s w c).
Proof.
  intros s w W W' sp b Hs Hc H.
  unfold set_widget in H.
  apply bind_Ok in H as (sp0 & W0 & H0 & H). apply deref_Ok in H0 as [H0 ->].
  rewrite Hs in H0. inversion H0; subst sp0; clear H0.
  assert (Hcx : ComplexAnimation_set_widget s w W = Ok (b, W'))
    by (destruct (cls sp); [congruence | exact H | exact H]).
  clear H. unfold ComplexAnimation_set_widget in Hcx.
  apply bind_Ok in Hcx as (sp0 & W0 & H0 & H). apply deref_Ok in H0 as [H0 ->].
  rewrite Hs in H0. inversion H0; subst sp0; clear H0.
  apply bind_Ok in H as (busy & W0 & H0 & H). apply gets_Ok in H0 as [-> ->].
  destruct (existsb (child_is_running W w) (animations sp)) eqn:B.
  - left. apply ret_Ok in H as [-> ->]. auto.
  - right. apply bind_Ok in H as (u & W1 & Hl & H).
    apply ret_Ok in H as [-> ->].
    apply attach_children in Hl as [Hl _]. auto.
Qed.

Lemma composite_attach_binds_every_child_witness :
  (existsb (child_is_running sequence_unattached_world 0)
     (animations (anim_at sequence_unattached_world 2)) = true /\
   true = false /\
   world_of (set_widget 2 0 sequence_unattached_world)
     = sequence_unattached_world)
  \/
  (existsb (child_is_running sequence_unattached_world 0)
     (animations (anim_at sequence_unattached_world 2)) = false /\
   true = true /\
   forall c, In c (animations (anim_at sequence_unattached_world 2)) ->
     bound_to (world_of (set_widget 2 0 sequence_unattached_world)) 2 0 c).
Proof.
  apply (@composite_attach_binds_every_child 2 0 sequence_unattached_world
           (world_of (set_widget 2 0 sequence_unattached_world))
           (anim_at sequence_unattached_world 2) true).
  - reflexivity.
  - discriminate.
  - vm_compute. reflexivity.
Defined.

(* ------------------------------------------------------------------ *)
(** * Rebinding a child of a sequence *)
(* ------------------------------------------------------------------ *)

Lemma repopulate_sequences_other attrs keys : forall acc pl prop,
  repopulate_sequences attrs keys acc = Ok pl ->
  ~ In prop (map fst keys) -> dict_get pl prop = dict_get acc prop.
Proof.
  induction keys as [|[k t] keys IH]; intros acc pl prop H Hn; simpl in H.
  - inversion H. reflexivity.
  - apply rbind_Ok in H as (cval & _ & H).
    assert (Hk : k <> prop) by (intros ->; apply Hn; now left).
    assert (Hn' : ~ In prop (map fst keys)) by (intros Hin; apply Hn; now right).
    destruct cval; try (now apply (IH _ _ _ H));
      rewrite (IH _ _ _ H Hn'); now apply dict_get_set_other.
Qed.

Lemma rebind_props_spec binding attrs items : forall acc pl,
  rebind_props binding attrs items acc = Ok pl ->
  NoDup (map fst items) ->
  (forall prop x, In (prop, x) items ->
     exists cval b, dict_get attrs prop = Some cval /\
                    binding cval x = Ok b /\ dict_get pl prop = Some b) /\
  (forall prop, ~ In prop (map fst items) -> dict_get pl prop = dict_get acc prop).
Proof.
  induction items as [|[k x] items IH]; intros acc pl H Hnd; simpl in H.
  - inversion H; subst. split; [intros ? ? [] | reflexivity].
  - apply rbind_Ok in H as (cval & Hc & H).
    apply rbind_Ok in H as (b & Hb & H).
    inversion Hnd as [|? ? Hk Hnd']; subst.
    destruct (IH _ _ H Hnd') as [Hin Hout].
    unfold _get_value_from, dict_item in Hc.
    destruct (dict_get attrs k) as [c|] eqn:G; [|discriminate].
    inversion Hc; subst c.
    split.
    + intros prop y [E | Hy].
      * inversion E; subst. exists cval, b.
        split; [exact G|]. split; [exact Hb|].
        rewrite (Hout _ Hk). apply dict_get_set_same.
      * now apply Hin.
    + intros prop Hn.
      assert (Hk' : k <> prop) by (intros ->; apply Hn; now left).
      rewrite Hout by (intros Hi; apply Hn; now right).
      now apply dict_get_set_other.
Qed.

Lemma absolute_binding_target cval t s' t' :
  absolute_binding cval t = Ok (s', t') ->
  t' = t /\ (is_number cval = true -> s' = cval).
Proof.
  intros H. split.
  - destruct cval; cbn in H; try (inversion H; reflexivity).
    apply rbind_Ok in H as (keys & _ & H).
    apply rbind_Ok in H as (temp & _ & H). now inversion H.
  - intros Hn. rewrite absolute_binding_number in H by exact Hn.
    now inversion H.
Qed.

(** X25. [_repopulate_attrib], which a sequence calls on its next child
    when a child has stopped, keeps the end value of every binding and
    takes the start value anew from the widget (for a number, the value
    itself). The end values are not recomputed, whatever the class of the
    instance: a delta child that is not the first of its sequence
    therefore ends at the value its property had when the sequence was
    attached plus the delta, not at the value the earlier children left
    plus the delta. *)
Theorem repopulate_keeps_the_end_values :
  forall (i w : nat) (W W' : World) (a : AnimationBase) (attrs : dict),
  nth_error (animobjs W) i = Some a ->
  nth_error (widgets W) w = Some attrs ->
  NoDup (map fst (_prop_list a)) ->
  AnimationBase__repopulate_attrib i w W = Ok (tt, W') ->
  exists a',
    nth_error (animobjs W') i = Some a' /\ widget a' = w /\
    ab_cls a' = ab_cls a /\ widgets W' = widgets W /\
    (forall prop s t, In (prop, (s, t)) (_prop_list a) ->
       exists cval s',
         dict_get attrs prop = Some cval /\
         dict_get (_prop_list a') prop = Some (s', t) /\
         absolute_binding cval t = Ok (s', t) /\
         (is_number cval = true -> s' = cval)) /\
    (forall prop, ~ In prop (map fst (_prop_list a)) ->
       dict_get (_prop_list a') prop = None).
Proof.
  intros i w W W' a attrs Ha Hw Hnd H.
  unfold AnimationBase__repopulate_attrib in H.
  apply bind_Ok in H as (u0 & W0 & H0 & H).
  apply update_animobj_Ok in H0 as (a0 & E0 & ->).
  rewrite Ha in E0. inversion E0; subst a0; clear E0.
  apply bind_Ok in H as (a1 & W1 & H1 & H). apply deref_Ok in H1 as [H1 ->].
  unfold with_animobjs in H1; cbn [animobjs] in H1.
  erewrite nth_error_list_set_same in H1 by exact Ha.
  inversion H1; subst a1; clear H1.
  apply bind_Ok in H as (attrs0 & W1 & H1 & H). apply deref_Ok in H1 as [H1 ->].
  unfold with_animobjs in H1; cbn [widgets] in H1.
  rewrite Hw in H1. inversion H1; subst attrs0; clear H1.
  apply bind_Ok in H as (pl1 & W1 & H1 & H). apply lift_Ok in H1 as [H1 ->].
  apply bind_Ok in H as (pl2 & W1 & H2 & H). apply lift_Ok in H2 as [H2 ->].
  apply update_animobj_Ok in H as (a2 & E2 & ->).
  unfold with_animobjs in E2; cbn [animobjs] in E2.
  erewrite nth_error_list_set_same in E2 by exact Ha.
  inversion E2; subst a2; clear E2.
  cbn [_prop_list set_widget_ref] in H1, H2.
  set (keys := map (fun kv : string * (value * value) => (fst kv, snd (snd kv)))
                 (_prop_list a)) in *.
  assert (Hfst : map fst keys = map fst (_prop_list a)).
  { unfold keys. rewrite map_map. reflexivity. }
  assert (Hnd' : NoDup (map fst keys)) by (rewrite Hfst; exact Hnd).
  destruct (rebind_props_spec _ _ _ _ H2 Hnd') as [Hin Hout].
  exists (set_prop_list pl2 (set_widget_ref w a)).
  unfold with_animobjs; cbn [animobjs widgets].
  split.
  { eapply nth_error_list_set_same.
    eapply nth_error_list_set_same. exact Ha. }
  split; [reflexivity|]. split; [reflexivity|]. split; [reflexivity|].
  cbn [_prop_list set_prop_list]. split.
  - intros prop s t Hp.
    assert (Hk : In (prop, t) keys).
    { unfold keys. apply in_map_iff. exists (prop, (s, t)). auto. }
    destruct (Hin _ _ Hk) as (cval & [s' t'] & Hc & Hb & Hg).
    destruct (absolute_binding_target _ _ Hb) as [-> Hs].
    exists cval, s'. auto.
  - intros prop Hn. rewrite <- Hfst in Hn.
    rewrite (Hout _ Hn).
    rewrite (repopulate_sequences_other _ _ _ _ H1 Hn). reflexivity.
Qed.

(** The delta child of the mixed sequence, rebound when [x] is at 100:
    its binding goes from 100 to 10, the end value computed at attach. *)
Lemma repopulate_keeps_the_end_values_witness :
  exists a',
    nth_error (animobjs (world_of (AnimationBase__repopulate_attrib 1 0
                                     mixed_sequence_midway))) 1 = Some a' /\
    widget a' = 0%nat /\
    ab_cls a' = ab_cls (animobj_at mixed_sequence_midway 1) /\
    widgets (world_of (AnimationBase__repopulate_attrib 1 0
                         mixed_sequence_midway))
      = widgets mixed_sequence_midway /\
    (forall prop s t,
       In (prop, (s, t)) (_prop_list (animobj_at mixed_sequence_midway 1)) ->
       exists cval s',
         dict_get [("x"%string, VInt 100)] prop = Some cval /\
         dict_get (_prop_list a') prop = Some (s', t) /\
         absolute_binding cval t = Ok (s', t) /\
         (is_number cval = true -> s' = cval)) /\
    (forall prop,
       ~ In prop (map fst (_prop_list (animobj_at mixed_sequence_midway 1))) ->
       dict_get (_prop_list a') prop = None).
Proof.
  apply (@repopulate_keeps_the_end_values 1 0 mixed_sequence_midway
           (world_of (AnimationBase__repopulate_attrib 1 0
                        mixed_sequence_midway))
           (animobj_at mixed_sequence_midway 1) [("x"%string, VInt 100)]).
  - reflexivity.
  - vm_compute. reflexivity.
  - vm_compute. repeat constructor. intros [].
  - vm_compute. reflexivity.
Defined.

(** The run of the mixed sequence: the delta child, bound at attach as
    from 0 to 10, is rebound as from 100 to 10, and the run leaves [x] at
    10. *)
Lemma mixed_sequence_example :
  ab_cls (animobj_at mixed_sequence_midway 1) = DeltaAnimationBase /\
  _prop_list (animobj_at mixed_sequence_midway 1)
    = [("x"%string, (VInt 0, VInt 10))] /\
  widget_attr mixed_sequence_midway 0 "x" = Some (VInt 100) /\
  let W := world_of (mixed_sequence_scene 8 [1 # 2; 1; 1; 1 # 2; 1; 1]
                       empty_world) in
  clock W = [] /\ widget_attr W 0 "x" = Some (VInt 10).
Proof. vm_compute. repeat split. Qed.
